(** * Argparse_Python: the task tracker (main.py) and the argparse demo
      (argparse_demo.py), embedded and verified.

    The Python objects the code shares and mutates (Task instances, the list
    held in [self.tasks]) live in an explicit heap; the backing file, the
    console and the clock are part of the state or of the arguments.
    Exceptions are outcomes of a small state-and-exception monad. *)

From Stdlib Require Import ZArith String Ascii List Lia.
From stdpp Require Import base list strings gmap pretty.

Local Set Warnings "-register-all".
Local Open Scope string_scope.
Local Open Scope list_scope.
Local Open Scope Z_scope.

(** ** Python outcomes *)

(** What [SystemExit] carries in [e.code]: nothing, an integer or a message. *)
Inductive exit_code :=
| CodeNone
| CodeInt (n : Z)
| CodeStr (msg : string).

(** The exceptions the two programs meet. [SystemExit] derives from
    [BaseException] only; all the others derive from [Exception]. *)
Inductive exn :=
| OSError
| UnicodeDecodeError
| JSONDecodeError
| KeyError (key : string)
| TypeError
| ValueError
| SystemExit (code : exit_code).

Definition is_Exception (e : exn) : bool :=
  match e with
  | SystemExit _ => false
  | _ => true
  end.

(** The result of running a piece of code: it returns, it raises, or it
    leaves the typed model. [Untyped] is not a Python outcome: it marks the
    one place where Python would go on with a value outside the annotated
    type of a dataclass field (see [as_int] and [as_str] below). *)
Inductive outcome (A : Type) :=
| Ok (a : A)
| Raise (e : exn)
| Untyped.
Arguments Ok {A} a.
Arguments Raise {A} e.
Arguments Untyped {A}.

Section Monad.
Context {S : Type}.

Definition M (A : Type) : Type := S -> outcome A * S.

Definition ret {A} (a : A) : M A := fun s => (Ok a, s).

Definition bind {A B} (c : M A) (k : A -> M B) : M B :=
  fun s =>
    match c s with
    | (Ok a, s') => k a s'
    | (Raise e, s') => (Raise e, s')
    | (Untyped, s') => (Untyped, s')
    end.

Definition raise {A} (e : exn) : M A := fun s => (Raise e, s).

Definition lift {A} (o : outcome A) : M A := fun s => (o, s).

Definition get : M S := fun s => (Ok s, s).

Definition modify (f : S -> S) : M unit := fun s => (Ok tt, f s).

(** [try: body  except Exception as e: handler e] *)
Definition try_except_Exception {A} (body : M A) (handler : exn -> M A) : M A :=
  fun s =>
    match body s with
    | (Raise e, s') => if is_Exception e then handler e s' else (Raise e, s')
    | r => r
    end.

(** [try: body  except SystemExit as e: h1 e  except Exception as e: h2 e] *)
Definition try_except_SystemExit_Exception {A} (body : M A)
    (on_exit : exit_code -> M A) (on_error : exn -> M A) : M A :=
  fun s =>
    match body s with
    | (Raise (SystemExit c), s') => on_exit c s'
    | (Raise e, s') => on_error e s'
    | r => r
    end.

(** A list comprehension or a [for] loop whose body has effects. *)
Fixpoint for_each {A B} (f : A -> M B) (xs : list A) : M (list B) :=
  match xs with
  | [] => ret []
  | x :: xs' =>
      bind (f x) (fun y => bind (for_each f xs') (fun ys => ret (y :: ys)))
  end.
End Monad.
Arguments M : clear implicits.

Notation "'do' x <- c ; k" := (bind c (fun x => k))
  (at level 10, x name, c at level 100, k at level 200).
Notation "c ;; k" := (bind c (fun _ => k))
  (at level 100, k at level 200, right associativity).

(** ** JSON values: what [json.load] returns and [json.dump] accepts *)

Inductive json :=
| JNull
| JBool (b : bool)
| JInt (n : Z)
| JFloat (literal : string)
| JStr (s : string)
| JList (items : list json)
| JDict (entries : list (string * json)).

(** [d[key]] on a dict given by its entries. *)
Fixpoint assoc (key : string) (entries : list (string * json)) : option json :=
  match entries with
  | [] => None
  | (k, v) :: rest => if String.eqb k key then Some v else assoc key rest
  end.

(** [data[key]] for a string key: only a dict can be indexed by a string. *)
Definition getitem (data : json) (key : string) : outcome json :=
  match data with
  | JDict entries =>
      match assoc key entries with
      | Some v => Ok v
      | None => Raise (KeyError key)
      end
  | _ => Raise TypeError
  end.

(** [for item in raw]: lists yield their items, dicts their keys, strings
    their characters; nothing else is iterable. *)
Definition py_iter (raw : json) : outcome (list json) :=
  match raw with
  | JList items => Ok items
  | JDict entries => Ok (map (fun kv => JStr (fst kv)) entries)
  | JStr s => Ok (map (fun c => JStr (String c EmptyString)) (list_ascii_of_string s))
  | _ => Raise TypeError
  end.

(** The annotations of [Task] are taken as the types of its fields. A value
    of another JSON type in that place is kept by Python as it is; the typed
    record cannot hold it, and the model stops there with [Untyped]. *)
Definition as_int (v : json) : outcome Z :=
  match v with
  | JInt n => Ok n
  | _ => Untyped
  end.

Definition as_str (v : json) : outcome string :=
  match v with
  | JStr s => Ok s
  | _ => Untyped
  end.

Module TaskTracker.

(** ** Data model (main.py) *)

Record Task := mkTask {
  id : Z;
  title : string;
  description : string;
  status : string;   (* "todo", "in_progress", "done" *)
  priority : Z;      (* 1..5 *)
  created_at : string;
  updated_at : string;
}.

#[global] Instance Task_inhabited : Inhabited Task :=
  populate (mkTask 0 "" "" "" 0 "" "").

Definition set_status (s : string) (t : Task) : Task :=
  mkTask (id t) (title t) (description t) s (priority t) (created_at t) (updated_at t).

Definition set_updated_at (u : string) (t : Task) : Task :=
  mkTask (id t) (title t) (description t) (status t) (priority t) (created_at t) u.

(** [dataclasses.asdict]: the fields in declaration order. *)
Definition asdict (t : Task) : json :=
  JDict [ ("id", JInt (id t));
          ("title", JStr (title t));
          ("description", JStr (description t));
          ("status", JStr (status t));
          ("priority", JInt (priority t));
          ("created_at", JStr (created_at t));
          ("updated_at", JStr (updated_at t)) ].

(** The backing file as [Path.exists], [open] and [json.load] see it. A path
    the disk does not hold is a path where there is no file. *)
Inductive file :=
| Inaccessible          (* os.stat fails with an error that Path.exists does
                           not swallow (EACCES, ENAMETOOLONG): exists and
                           open both raise OSError *)
| Unreadable            (* exists returns True; open or read raises OSError *)
| BadEncoding           (* the bytes are not UTF-8 *)
| BadJson               (* the text is not JSON *)
| Document (j : json).  (* json.load returns j *)

(** What [console.print] has shown: the only panel the repository itself
    prints is the load error, with the exception and the file. *)
Inductive panel :=
| LoadError (e : exn) (path : string).

(** Addresses of heap objects. *)
Abbreviation addr := nat (only parsing).

Record state := mkState {
  self_path : string;          (* self.path *)
  self_tasks : addr;           (* self.tasks: a reference to a list object *)
  objects : list Task;         (* the Task instances, by address *)
  lists : list (list addr);    (* the list objects, by address *)
  disk : gmap string file;     (* the file system *)
  console : list panel;
}.

Definition with_self_path (p : string) (st : state) : state :=
  mkState p (self_tasks st) (objects st) (lists st) (disk st) (console st).
Definition with_self_tasks (l : addr) (st : state) : state :=
  mkState (self_path st) l (objects st) (lists st) (disk st) (console st).
Definition with_objects (o : list Task) (st : state) : state :=
  mkState (self_path st) (self_tasks st) o (lists st) (disk st) (console st).
Definition with_lists (l : list (list addr)) (st : state) : state :=
  mkState (self_path st) (self_tasks st) (objects st) l (disk st) (console st).
Definition with_disk (d : gmap string file) (st : state) : state :=
  mkState (self_path st) (self_tasks st) (objects st) (lists st) d (console st).
Definition with_console (c : list panel) (st : state) : state :=
  mkState (self_path st) (self_tasks st) (objects st) (lists st) (disk st) c.

(** *** Heap primitives *)

(** [Task(...)]: a new instance. *)
Definition new_task (t : Task) : M state addr :=
  fun st => (Ok (length (objects st)), with_objects (objects st ++ [t]) st).

(** A new list object, as built by [[]], a comprehension or [list(...)]. *)
Definition new_list (l : list addr) : M state addr :=
  fun st => (Ok (length (lists st)), with_lists (lists st ++ [l]) st).

Definition read_task (a : addr) : M state Task :=
  fun st => (Ok (objects st !!! a), st).

Definition read_list (l : addr) : M state (list addr) :=
  fun st => (Ok (lists st !!! l), st).

(** [task.field = v] *)
Definition setattr (a : addr) (f : Task -> Task) : M state unit :=
  modify (fun st => with_objects (<[a := f (objects st !!! a)]> (objects st)) st).

(** [lst.append(a)] *)
Definition list_append (l : addr) (a : addr) : M state unit :=
  modify (fun st => with_lists (<[l := (lists st !!! l) ++ [a]]> (lists st)) st).

(** [lst[i] = a] *)
Definition list_setitem (l : addr) (i : nat) (a : addr) : M state unit :=
  modify (fun st => with_lists (<[l := <[i := a]> (lists st !!! l)]> (lists st)) st).

(** [lst.clear()] *)
Definition list_clear (l : addr) : M state unit :=
  modify (fun st => with_lists (<[l := []]> (lists st)) st).

(** The tasks of the store, in order, as values. *)
Definition collection (st : state) : list Task :=
  map (fun a => objects st !!! a) (lists st !!! self_tasks st).

Definition ids (st : state) : list Z := map id (collection st).

(** *** Task.from_dict *)

(** The seven subscripts are the arguments of the call and are evaluated
    first, in its order; then [Task(...)] puts the values in fields annotated
    [int], resp. [str]. *)
Definition from_dict (data : json) : M state addr :=
  do i <- lift (getitem data "id");
  do t <- lift (getitem data "title");
  do d <- lift (getitem data "description");
  do s <- lift (getitem data "status");
  do p <- lift (getitem data "priority");
  do c <- lift (getitem data "created_at");
  do u <- lift (getitem data "updated_at");
  do i <- lift (as_int i);
  do t <- lift (as_str t);
  do d <- lift (as_str d);
  do s <- lift (as_str s);
  do p <- lift (as_int p);
  do c <- lift (as_str c);
  do u <- lift (as_str u);
  new_task (mkTask i t d s p c u).

(** ** TaskRepository *)

(** [self.path.exists()]: False where there is no file, and the error of
    [os.stat] itself when it is none of those [exists] takes for absence. *)
Definition path_exists : M state bool :=
  fun st =>
    match disk st !! self_path st with
    | None => (Ok false, st)
    | Some Inaccessible => (Raise OSError, st)
    | Some _ => (Ok true, st)
    end.

(** [with self.path.open("r", encoding="utf-8") as f: raw = json.load(f)] *)
Definition open_and_load : M state json :=
  fun st =>
    match disk st !! self_path st with
    | None => (Raise OSError, st)
    | Some Inaccessible => (Raise OSError, st)
    | Some Unreadable => (Raise OSError, st)
    | Some BadEncoding => (Raise UnicodeDecodeError, st)
    | Some BadJson => (Raise JSONDecodeError, st)
    | Some (Document j) => (Ok j, st)
    end.

Definition console_print (p : panel) : M state unit :=
  modify (fun st => with_console (console st ++ [p]) st).

(** [self.tasks = l] *)
Definition assign_tasks (l : addr) : M state unit := modify (with_self_tasks l).

(** The body of the [try] in [_load]. *)
Definition _load_body : M state unit :=
  do raw <- open_and_load;
  do items <- lift (py_iter raw);
  do ts <- for_each from_dict items;
  do l <- new_list ts;
  assign_tasks l.

Definition _load : M state unit :=
  do present <- path_exists;
  if negb present then
    (do l <- new_list []; assign_tasks l)
  else
    try_except_Exception _load_body
      (fun e =>
         do st <- get;
         console_print (LoadError e (self_path st));;
         do l <- new_list [];
         assign_tasks l).

Definition __init__ (path : string) : M state unit :=
  modify (with_self_path path);;
  do l <- new_list [];
  assign_tasks l;;
  _load.

(** [json.dump] of the whole collection replaces the file. The write is
    taken to succeed: the path can be opened for writing and every string of
    the collection can be encoded as UTF-8. What the file then holds is given
    as the value that was dumped, which is the value [json.load] returns for
    the text [json.dump] writes. *)
Definition _save : M state unit :=
  modify (fun st =>
    with_disk (<[self_path st := Document (JList (map asdict (collection st)))]> (disk st)) st).

(** [max] of a non-empty sequence of integers. *)
Definition py_max (x : Z) (xs : list Z) : Z := fold_left Z.max xs x.

Definition next_id : M state Z :=
  do st <- get;
  match ids st with
  | [] => ret 1
  | i :: rest => ret (py_max i rest + 1)
  end.

(** [now] is what [datetime.now().isoformat(timespec="seconds")] returns
    during the call. *)
Definition add (title description : string) (priority : Z) (now : string) : M state addr :=
  do i <- next_id;
  do task <- new_task (mkTask i title description "todo" priority now now);
  do st <- get;
  list_append (self_tasks st) task;;
  _save;;
  ret task.

Definition find (task_id : Z) : M state (option addr) :=
  do st <- get;
  ret (List.find (fun a => id (objects st !!! a) =? task_id) (lists st !!! self_tasks st)).

Definition update_status (task_id : Z) (new_status : string) (now : string) : M state bool :=
  do task <- find task_id;
  match task with
  | None => ret false
  | Some a =>
      setattr a (set_status new_status);;
      setattr a (set_updated_at now);;
      _save;;
      ret true
  end.

Definition delete (task_id : Z) : M state bool :=
  do st <- get;
  let before := length (lists st !!! self_tasks st) in
  do l <- new_list (List.filter (fun a => negb (id (objects st !!! a) =? task_id))
                               (lists st !!! self_tasks st));
  assign_tasks l;;
  do st' <- get;
  if (length (lists st' !!! self_tasks st') =? before)%nat then ret false
  else (_save;; ret true).

Definition all : M state addr :=
  do st <- get;
  new_list (lists st !!! self_tasks st).


(** A store as Python can build it: [self.tasks] is a list object and its
    items are Task instances. *)
Definition wf (st : state) : Prop :=
  (self_tasks st < length (lists st))%nat /\
  Forall (fun a => (a < length (objects st))%nat) (lists st !!! self_tasks st).

(** *** Example stores and callers *)

(** An empty world: no objects, no files, nothing printed. *)
Definition boot : state := mkState "" 0%nat [] [] ∅ [].

(** A store built where no file exists. *)
Definition empty_store : state := snd (__init__ "tasks.json" boot).

(** The same store after [add("X", "", 3)]. *)
Definition store_one : state := snd (add "X" "" 3 "2026-11-03T20:15:00" empty_store).

(** A store loaded from a file whose only task carries a stamp of 2030. *)
Definition task_ahead : Task :=
  mkTask 1 "X" "" "todo" 3 "2030-01-01T00:00:00" "2030-01-01T00:00:00".

Definition store_ahead : state :=
  snd (__init__ "tasks.json"
         (with_disk {[ "tasks.json" := Document (JList [asdict task_ahead]) ]} boot)).

(** A caller of [all()] that marks the first task it gets as done:
    [tasks = repo.all(); tasks[0].status = "done"]. *)
Definition mark_first_done : M state unit :=
  do l <- all;
  do items <- read_list l;
  match items with
  | a :: _ => setattr a (set_status "done")
  | [] => ret tt
  end.

End TaskTracker.


Module ArgparseDemo.

(** ** The command-line demo (argparse_demo.py)

    [argparse] is not part of the repository: the parser that [build_parser]
    configures enters [main] as the function [parse_args]. Of the three
    handlers, [handle_greet] is modelled; [main] itself takes whatever
    handler the parser stored in [args.func]. *)

Record AppConfig := mkAppConfig {
  cfg_verbose : bool;
  cfg_output : option string;
}.

(** The attributes of the parsed namespace: the global options and those of
    the [greet] subcommand. *)
Record Namespace := mkNamespace {
  verbose : bool;
  output : option string;
  name : string;
  times : Z;
  shout : bool;
}.

(** What the program writes to standard output, one entry per call. *)
Inductive printed :=
| Line (text : string)        (* print(text) *)
| Info (path : string)        (* the [INFO] line naming the file written *)
| Unexpected (e : exn)        (* the [UNEXPECTED ERROR] line *)
| Help.                       (* parser.print_help() *)

(** What a path of the file system holds: the text of a file, or something
    that cannot be opened for writing (a directory, a file without write
    permission, a name below a directory that is missing). A path the file
    system does not hold is free: writing creates the file. *)
Inductive node :=
| Text (content : string)
| Unwritable.

Record world := mkWorld {
  sys_argv : list string;          (* sys.argv[1:] *)
  stdout : list printed;
  files : gmap string node;
}.

Definition print (p : printed) : M world unit :=
  modify (fun w => mkWorld (sys_argv w) (stdout w ++ [p]) (files w)).

(** [Path(path).write_text(text, encoding="utf-8")]: the file is replaced,
    or [open] raises [OSError] and nothing is written. Texts are held as
    UTF-8, so that encoding one does not fail. *)
Definition write_text (path text : string) : M world unit :=
  fun w =>
    match files w !! path with
    | Some Unwritable => (Raise OSError, w)
    | _ => (Ok tt, mkWorld (sys_argv w) (stdout w) (<[path := Text text]> (files w)))
    end.

(** The namespace together with its [func] attribute, which only a
    subcommand sets. *)
Record Args := mkArgs {
  ns : Namespace;
  func : option (Namespace -> AppConfig -> M world unit);
}.

Definition get_config (args : Namespace) : AppConfig :=
  mkAppConfig (verbose args) (output args).

(** *** Strings *)

(** [s * n] *)
Fixpoint repeat_str (s : string) (n : nat) : string :=
  match n with
  | O => ""
  | S n' => s +:+ repeat_str s n'
  end.

(** [sep.join(parts)] *)
Fixpoint join (sep : string) (parts : list string) : string :=
  match parts with
  | [] => ""
  | [p] => p
  | p :: rest => p +:+ sep +:+ join sep rest
  end.

Definition byte (c : ascii) : N := N_of_ascii c.

(** [len(s)]: strings are held as UTF-8, and a character is counted at its
    first byte. *)
Fixpoint py_len (s : string) : nat :=
  match s with
  | EmptyString => O
  | String c rest =>
      if ((128 <=? byte c) && (byte c <? 192))%N then py_len rest else S (py_len rest)
  end.

Definition newline : string := String (ascii_of_N 10) "".

Definition write_output (lines : list string) (config : AppConfig) : M world unit :=
  let frame := repeat_str "=" 50 in
  let text := join newline ([frame] ++ lines ++ [frame]) in
  match cfg_output config with
  | Some path =>
      if String.eqb path "" then print (Line text)
      else (write_text path text;; print (Info path))
  | None => print (Line text)
  end.

(** *** int(...) of what SystemExit carries *)

Definition truthy (c : exit_code) : bool :=
  match c with
  | CodeNone => false
  | CodeInt n => negb (n =? 0)
  | CodeStr s => negb (String.eqb s "")
  end.

(** [str(e)] for [e = SystemExit(c)] *)
Definition str_of_code (c : exit_code) : string :=
  match c with
  | CodeNone => "None"
  | CodeInt n => pretty n
  | CodeStr s => s
  end.

(** The blanks [int] skips around a numeral: tab to carriage return, and
    the space. *)
Definition is_space (c : ascii) : bool :=
  ((9 <=? byte c) && (byte c <=? 13) || (byte c =? 32))%N.

Definition is_digit (c : ascii) : bool := ((48 <=? byte c) && (byte c <=? 57))%N.

Definition is_ascii (c : ascii) : bool := (byte c <? 128)%N.

(** First byte of a character of the Cyrillic block U+0400..U+04FF, which
    holds letters and marks only. *)
Definition is_cyrillic_lead (c : ascii) : bool := ((208 <=? byte c) && (byte c <=? 211))%N.

Fixpoint lstrip (s : string) : string :=
  match s with
  | String c rest => if is_space c then lstrip rest else s
  | EmptyString => s
  end.

(** Digits with single underscores between them, then blanks to the end:
    the value read so far is [acc]; [after_digit] tells whether the last
    character was a digit. *)
Fixpoint digits (s : string) (acc : Z) (after_digit : bool) : option Z :=
  match s with
  | EmptyString => if after_digit then Some acc else None
  | String c rest =>
      if is_digit c then digits rest (10 * acc + (Z.of_N (byte c) - 48)) true
      else if Ascii.eqb c "_" then
        (if after_digit then
           match rest with
           | String d _ => if is_digit d then digits rest acc false else None
           | EmptyString => None
           end
         else None)
      else if is_space c then
        (if after_digit then (if String.eqb (lstrip rest) "" then Some acc else None) else None)
      else None
  end.

Definition all_ascii (s : string) : bool := forallb is_ascii (list_ascii_of_string s).

(** [int(s)] for a string. Answers are given where ASCII decides them, and
    for a text that starts in Cyrillic; a numeral with other characters
    outside ASCII in it, or so long that it could hold more than the 4300
    digits recent interpreters accept, is left [Untyped]. *)
Definition int_of_str (s : string) : outcome Z :=
  match lstrip s with
  | EmptyString => Raise ValueError
  | String c rest =>
      if is_cyrillic_lead c then Raise ValueError
      else if negb (is_ascii c) then Untyped
      else if negb (is_digit c || Ascii.eqb c "+" || Ascii.eqb c "-") then Raise ValueError
      else if negb (all_ascii rest) then Untyped
      else if (4300 <=? String.length rest)%nat then Untyped
      else
        let body := if is_digit c then String c rest else rest in
        match digits body 0 false with
        | Some n => Ok (if Ascii.eqb c "-" then - n else n)
        | None => Raise ValueError
        end
  end.

(** [int(e.code or 0)] *)
Definition int_of_code (c : exit_code) : outcome Z :=
  if truthy c then
    match c with
    | CodeNone => Raise TypeError
    | CodeInt n => Ok n
    | CodeStr s => int_of_str s
    end
  else Ok 0.

Section Handlers.

(** [str.upper], Unicode case mapping. *)
Variable upper : string -> string.

(** The parser built by [build_parser]: parsing [argv] returns the
    arguments or leaves through [SystemExit]. *)
Variable parse_args : list string -> M world Args.

(** The [for] loop of [handle_greet]: [i] counts from [start]. *)
Fixpoint greet_lines (verbose : bool) (base : string) (start : Z) (n : nat) : list string :=
  match n with
  | O => []
  | S n' =>
      (if verbose then "[" +:+ pretty (start + 1) +:+ "] " +:+ base else base)
        :: greet_lines verbose base (start + 1) n'
  end.

Definition handle_greet (args : Namespace) (config : AppConfig) : M world unit :=
  if times args <? 1 then
    raise (SystemExit (CodeStr "Количество повторов должно быть >= 1"))
  else
    let base := "Привет, " +:+ name args +:+ "!" in
    let base := if shout args then upper base else base in
    let header := "Блок приветствия для: " +:+ name args in
    let lines := [header; repeat_str "-" (py_len header)]
                 ++ greet_lines (cfg_verbose config) base 0 (Z.to_nat (times args)) in
    write_output lines config.

Definition main (argv : option (list string)) : M world Z :=
  do w <- get;
  let argv := match argv with Some l => l | None => sys_argv w end in
  do args <- parse_args argv;
  let config := get_config (ns args) in
  match func args with
  | None => print Help;; ret 1
  | Some f =>
      do returned <-
        try_except_SystemExit_Exception
          (f (ns args) config;; ret None)
          (fun code =>
             (if truthy code then print (Line ("[ERROR] " +:+ str_of_code code)) else ret tt);;
             do n <- lift (int_of_code code);
             ret (Some n))
          (fun e => print (Unexpected e);; ret (Some 1));
      match returned with
      | Some n => ret n
      | None => ret 0
      end
  end.

End Handlers.

(** *** Example runs *)

(** What [greet Alex --times 0] parses to. *)
Definition greet_zero (upper : string -> string) : Args :=
  mkArgs (mkNamespace false None "Alex" 0 false) (Some (handle_greet upper)).

Definition quiet : world := mkWorld [] [] ∅.

End ArgparseDemo.

Module TaskTrackerView.

(** ** The table of tasks (main.py, [render_tasks_table])

    The cells the function computes itself; the table is drawn by [rich]. *)

(** ["★" * task.priority + "☆" * (5 - task.priority)]: a string repeated a
    negative number of times is empty. *)
Definition priority_stars (priority : Z) : string :=
  ArgparseDemo.repeat_str "★" (Z.to_nat priority)
  +:+ ArgparseDemo.repeat_str "☆" (Z.to_nat (5 - priority)).

End TaskTrackerView.

Module FileStats.

(** ** Counting lines (argparse_demo.py, [handle_file_stats])

    [text.count("\n") + (0 if text.endswith("\n") else 1 if text else 0)] *)

Definition is_newline (c : ascii) : bool := Ascii.eqb c (ascii_of_N 10).

(** [text.count("\n")] *)
Fixpoint count_newlines (text : string) : nat :=
  match text with
  | EmptyString => O
  | String c rest => ((if is_newline c then 1 else 0) + count_newlines rest)%nat
  end.

(** [text.endswith("\n")] *)
Fixpoint endswith_newline (text : string) : bool :=
  match text with
  | EmptyString => false
  | String c EmptyString => is_newline c
  | String _ rest => endswith_newline rest
  end.

Definition lines_count (text : string) : nat :=
  (count_newlines text
   + (if endswith_newline text then 0 else if String.eqb text "" then 0 else 1))%nat.

End FileStats.

(** * Derived definitions

    Closed forms of what the operations return and leave, and the pure
    reading of a file as tasks; the statements below are phrased with them. *)

Section TaskTrackerDerived.
Import TaskTracker.

(** The value [next_id] returns, as a function of the ids in the store. *)
Definition next_id_value (l : list Z) : Z :=
  match l with
  | [] => 1
  | i :: rest => py_max i rest + 1
  end.

(** The task [add] builds and the state it leaves. *)
Definition added_task (ttl descr : string) (prio : Z) (now : string) (st : state) : Task :=
  mkTask (next_id_value (ids st)) ttl descr "todo" prio now now.

Definition after_add (ttl descr : string) (prio : Z) (now : string) (st : state) : state :=
  let a := length (objects st) in
  let st1 := with_objects (objects st ++ [added_task ttl descr prio now st]) st in
  let st2 := with_lists (<[self_tasks st := (lists st !!! self_tasks st) ++ [a]]> (lists st)) st1 in
  with_disk (<[self_path st := Document (JList (map asdict (collection st2)))]> (disk st)) st2.

(** One call: title, description, priority and the clock reading. *)
Definition request : Type := string * string * Z * string.

Definition add_all (reqs : list request) : M state (list addr) :=
  for_each (fun q : request => let '(ttl, descr, prio, now) := q in add ttl descr prio now) reqs.

(** The ids a sequence of calls hands out, from the ids already present. *)
Fixpoint assigned {A} (l : list Z) (reqs : list A) : list Z :=
  match reqs with
  | [] => []
  | _ :: rest => next_id_value l :: assigned (l ++ [next_id_value l]) rest
  end.

(** The state [_load] leaves when the file holds the tasks [ts]. *)
Definition loaded (ts : list Task) (st : state) : state :=
  mkState (self_path st) (length (lists st)) (objects st ++ ts)
          (lists st ++ [seq (length (objects st)) (length ts)]) (disk st) (console st).

(** The list [delete] keeps, and the state once [self.tasks] is rebound. *)
Definition kept (task_id : Z) (st : state) : list addr :=
  List.filter (fun a => negb (id (objects st !!! a) =? task_id)) (lists st !!! self_tasks st).

Definition rebound (task_id : Z) (st : state) : state :=
  with_self_tasks (length (lists st)) (with_lists (lists st ++ [kept task_id st]) st).

(** The state [update_status] leaves when [find] returned the task at [a]. *)
Definition after_update (a : addr) (new_status now : string) (st : state) : state :=
  let st2 := with_objects
               (<[a := set_updated_at now (set_status new_status (objects st !!! a))]> (objects st))
               st in
  with_disk (<[self_path st := Document (JList (map asdict (collection st2)))]> (disk st)) st2.

(** What the file holds, read as tasks: the pure content of the [try] block
    of [_load]. [decode] is [Task.from_dict] without the allocation. *)
Definition and_then {A B} (o : outcome A) (k : A -> outcome B) : outcome B :=
  match o with
  | Ok a => k a
  | Raise e => Raise e
  | Untyped => Untyped
  end.

Definition decode (data : json) : outcome Task :=
  and_then (getitem data "id") (fun i =>
  and_then (getitem data "title") (fun t =>
  and_then (getitem data "description") (fun d =>
  and_then (getitem data "status") (fun s =>
  and_then (getitem data "priority") (fun p =>
  and_then (getitem data "created_at") (fun c =>
  and_then (getitem data "updated_at") (fun u =>
  and_then (as_int i) (fun i =>
  and_then (as_str t) (fun t =>
  and_then (as_str d) (fun d =>
  and_then (as_str s) (fun s =>
  and_then (as_int p) (fun p =>
  and_then (as_str c) (fun c =>
  and_then (as_str u) (fun u =>
  Ok (mkTask i t d s p c u))))))))))))))).

Fixpoint decode_all (items : list json) : outcome (list Task) :=
  match items with
  | [] => Ok []
  | item :: rest =>
      and_then (decode item) (fun t => and_then (decode_all rest) (fun ts => Ok (t :: ts)))
  end.

Definition read_tasks (f : file) : outcome (list Task) :=
  match f with
  | Inaccessible => Raise OSError
  | Unreadable => Raise OSError
  | BadEncoding => Raise UnicodeDecodeError
  | BadJson => Raise JSONDecodeError
  | Document j => and_then (py_iter j) decode_all
  end.

(** The state in which [__init__] calls [_load]. *)
Definition before_load (path : string) (st : state) : state :=
  with_self_tasks (length (lists st)) (with_lists (lists st ++ [[]]) (with_self_path path st)).

(** The entries [asdict] gives a task. *)
Definition fields (t : Task) : list (string * json) :=
  match asdict t with
  | JDict entries => entries
  | _ => []
  end.

End TaskTrackerDerived.

(** * Properties of the task tracker *)

Section TaskTrackerFacts.
Import TaskTracker.

(** ** Running monadic code *)

Lemma bind_Ok {S A B} (c : M S A) (k : A -> M S B) s a s' :
  c s = (Ok a, s') -> bind c k s = k a s'.
Proof. intros H. unfold bind. now rewrite H. Qed.

Lemma bind_Raise {S A B} (c : M S A) (k : A -> M S B) s e s' :
  c s = (Raise e, s') -> bind c k s = (Raise e, s').
Proof. intros H. unfold bind. now rewrite H. Qed.

Lemma bind_Untyped {S A B} (c : M S A) (k : A -> M S B) s s' :
  c s = (Untyped, s') -> bind c k s = (Untyped, s').
Proof. intros H. unfold bind. now rewrite H. Qed.

(** ** [max] *)

Lemma py_max_ge_acc xs x : x <= py_max x xs.
Proof.
  unfold py_max. revert x. induction xs as [|y ys IH]; intros x; simpl; [lia|].
  specialize (IH (Z.max x y)). lia.
Qed.

Lemma py_max_upper xs x i : In i (x :: xs) -> i <= py_max x xs.
Proof.
  unfold py_max. revert x. induction xs as [|y ys IH]; intros x [->|Hin]; simpl in *;
    try lia; try contradiction.
  - pose proof (py_max_ge_acc ys (Z.max i y)) as H. unfold py_max in H. lia.
  - destruct Hin as [->|Hin].
    + pose proof (py_max_ge_acc ys (Z.max x i)) as H. unfold py_max in H. lia.
    + apply IH. now right.
Qed.


Lemma next_id_run st : next_id st = (Ok (next_id_value (ids st)), st).
Proof. unfold next_id, next_id_value, bind, get. now destruct (ids st). Qed.

Lemma next_id_value_above l i : In i l -> i < next_id_value l.
Proof.
  destruct l as [|x xs]; [contradiction|]. intros Hin. simpl.
  pose proof (py_max_upper xs x i Hin). lia.
Qed.


(** ** [add] *)

Lemma add_run ttl descr prio now st :
  add ttl descr prio now st = (Ok (length (objects st)), after_add ttl descr prio now st).
Proof.
  unfold add. rewrite (bind_Ok _ _ _ _ _ (next_id_run st)). reflexivity.
Qed.

Lemma lookup_total_old (objs : list Task) t a :
  (a < length objs)%nat -> (objs ++ [t]) !!! a = objs !!! a.
Proof. intros H. now apply lookup_total_app_l. Qed.

Lemma lookup_total_new (objs : list Task) t : (objs ++ [t]) !!! length objs = t.
Proof. apply list_lookup_total_middle. reflexivity. Qed.

Lemma map_lookup_total_old (objs : list Task) t (l : list addr) :
  Forall (fun a => (a < length objs)%nat) l ->
  map (fun a => (objs ++ [t]) !!! a) l = map (fun a => objs !!! a) l.
Proof.
  induction 1 as [|a l Ha _ IH]; simpl; [reflexivity|].
  now rewrite IH, lookup_total_old.
Qed.

Lemma collection_after_add ttl descr prio now st :
  wf st ->
  collection (after_add ttl descr prio now st)
  = collection st ++ [added_task ttl descr prio now st].
Proof.
  intros [Hl Ha]. unfold collection, after_add. simpl.
  rewrite list_lookup_total_insert_eq by exact Hl.
  rewrite map_app. simpl. rewrite lookup_total_new.
  now rewrite map_lookup_total_old.
Qed.

Lemma ids_after_add ttl descr prio now st :
  wf st ->
  ids (after_add ttl descr prio now st) = ids st ++ [next_id_value (ids st)].
Proof.
  intros Hwf. unfold ids. rewrite collection_after_add by exact Hwf.
  now rewrite map_app.
Qed.

Lemma wf_after_add ttl descr prio now st : wf st -> wf (after_add ttl descr prio now st).
Proof.
  intros [Hl Ha]. unfold wf, after_add. simpl. split.
  - now rewrite length_insert.
  - rewrite list_lookup_total_insert_eq by exact Hl.
    rewrite length_app. simpl. apply Forall_app. split.
    + eapply Forall_impl; [exact Ha|]. simpl. intros. lia.
    + constructor; [lia|constructor].
Qed.

Lemma read_added_task ttl descr prio now st :
  objects (after_add ttl descr prio now st) !!! length (objects st)
  = added_task ttl descr prio now st.
Proof. unfold after_add. simpl. apply lookup_total_new. Qed.

Lemma disk_after_add ttl descr prio now st :
  disk (after_add ttl descr prio now st) !! self_path (after_add ttl descr prio now st)
  = Some (Document (JList (map asdict (collection (after_add ttl descr prio now st))))).
Proof. unfold after_add. simpl. now rewrite lookup_insert_eq. Qed.


(** ** Sequences of [add] calls *)

Lemma assigned_take {A} (reqs : list A) l k :
  assigned l (take k reqs) = take k (assigned l reqs).
Proof.
  revert l k. induction reqs as [|q r IH]; intros l [|k]; simpl; try reflexivity.
  now rewrite IH.
Qed.

Lemma assigned_above {A} (reqs : list A) l k i :
  assigned l reqs !! k = Some i ->
  forall j, In j (l ++ take k (assigned l reqs)) -> j < i.
Proof.
  revert l k. induction reqs as [|q r IH]; intros l [|k]; simpl; try discriminate.
  - intros [= <-] j Hj. rewrite app_nil_r in Hj. now apply next_id_value_above.
  - intros Hk j Hj. apply (IH _ _ Hk).
    now rewrite <- app_assoc.
Qed.

Lemma assigned_NoDup {A} (reqs : list A) l : NoDup (assigned l reqs).
Proof.
  apply NoDup_alt. intros i j x Hi Hj.
  destruct (Nat.lt_trichotomy i j) as [Hlt|[Heq|Hlt]]; [|exact Heq|]; exfalso.
  - assert (x < x); [|lia]. apply (assigned_above _ _ _ _ Hj).
    apply in_or_app. right. apply list_elem_of_In.
    apply (list_elem_of_lookup_2 _ i). now rewrite lookup_take_lt.
  - assert (x < x); [|lia]. apply (assigned_above _ _ _ _ Hi).
    apply in_or_app. right. apply list_elem_of_In.
    apply (list_elem_of_lookup_2 _ j). now rewrite lookup_take_lt.
Qed.

Lemma assigned_fresh {A} (reqs : list A) l i : In i (assigned l reqs) -> ~ In i l.
Proof.
  intros Hi Hl. apply list_elem_of_In, list_elem_of_lookup_1 in Hi as [k Hk].
  assert (i < i); [|lia]. apply (assigned_above _ _ _ _ Hk).
  apply in_or_app. now left.
Qed.

Lemma add_all_run reqs st :
  wf st ->
  exists new st',
    add_all reqs st = (Ok new, st') /\ wf st' /\
    (exists ext, objects st' = objects st ++ ext) /\
    Forall (fun a => (length (objects st) <= a < length (objects st'))%nat) new /\
    map (fun a => id (objects st' !!! a)) new = assigned (ids st) reqs /\
    ids st' = ids st ++ assigned (ids st) reqs.
Proof.
  revert st. induction reqs as [|[[[ttl descr] prio] now] r IH]; intros st Hwf.
  - exists [], st. simpl. rewrite app_nil_r.
    split; [reflexivity|]. split; [exact Hwf|].
    split; [exists []; now rewrite app_nil_r|].
    split; [constructor|]. split; reflexivity.
  - pose proof (wf_after_add ttl descr prio now st Hwf) as Hwf1.
    destruct (IH _ Hwf1) as (new & st' & Hrun & Hwf' & [ext Hext] & Hnew & Hids & Hall).
    exists (length (objects st) :: new), st'.
    assert (Hobj : objects st' = objects st ++ added_task ttl descr prio now st :: ext).
    { rewrite Hext. unfold after_add. simpl. now rewrite <- app_assoc. }
    split.
    { unfold add_all in *. simpl. rewrite (bind_Ok _ _ _ _ _ (add_run ttl descr prio now st)).
      now rewrite (bind_Ok _ _ _ _ _ Hrun). }
    split; [exact Hwf'|]. split; [eauto|].
    rewrite ids_after_add in Hids, Hall by exact Hwf.
    split; [|split].
    + constructor.
      * rewrite Hobj, length_app. simpl. lia.
      * eapply Forall_impl; [exact Hnew|]. simpl. intros a.
        unfold after_add. simpl. rewrite length_app. simpl. lia.
    + simpl. rewrite Hids. f_equal.
      rewrite Hobj. now rewrite list_lookup_total_middle.
    + simpl. rewrite Hall. now rewrite <- app_assoc.
Qed.

(** C1. Whatever the store holds, the ids a sequence of [add] calls assigns
    are pairwise distinct, differ from every id already present, and each
    one exceeds every id the collection holds just before that call. *)
Theorem add_assigns_fresh_increasing_ids (reqs : list request) (st : state) :
  wf st ->
  exists new st',
    add_all reqs st = (Ok new, st') /\
    ids st' = ids st ++ map (fun a => id (objects st' !!! a)) new /\
    NoDup (map (fun a => id (objects st' !!! a)) new) /\
    (forall i, In i (map (fun a => id (objects st' !!! a)) new) -> ~ In i (ids st)) /\
    (forall k, exists newk stk,
        add_all (take k reqs) st = (Ok newk, stk) /\
        ids stk = ids st ++ take k (map (fun a => id (objects st' !!! a)) new) /\
        forall i, map (fun a => id (objects st' !!! a)) new !! k = Some i ->
                  forall j, In j (ids stk) -> j < i).
Proof.
  intros Hwf.
  destruct (add_all_run reqs st Hwf) as (new & st' & Hrun & _ & _ & _ & Hids & Hall).
  exists new, st'. rewrite Hids. split; [exact Hrun|]. split; [exact Hall|].
  split; [apply assigned_NoDup|]. split; [apply assigned_fresh|].
  intros k.
  destruct (add_all_run (take k reqs) st Hwf) as (newk & stk & Hrunk & _ & _ & _ & _ & Hallk).
  exists newk, stk. rewrite Hallk, assigned_take. split; [exact Hrunk|].
  split; [reflexivity|]. intros i Hi. now apply assigned_above.
Qed.

(** ** Saving and loading *)

Lemma from_dict_asdict t st :
  from_dict (asdict t) st = (Ok (length (objects st)), with_objects (objects st ++ [t]) st).
Proof. destruct t. reflexivity. Qed.

Lemma for_each_from_dict ts st :
  for_each from_dict (map asdict ts) st
  = (Ok (seq (length (objects st)) (length ts)), with_objects (objects st ++ ts) st).
Proof.
  revert st. induction ts as [|t ts IH]; intros st.
  - simpl. unfold ret. rewrite app_nil_r. now destruct st.
  - simpl. rewrite (bind_Ok _ _ _ _ _ (from_dict_asdict t st)).
    rewrite (bind_Ok _ _ _ _ _ (IH _)). unfold ret. simpl.
    rewrite length_app, Nat.add_1_r, <- app_assoc. reflexivity.
Qed.

Lemma read_back (ts objs : list Task) :
  map (fun a => (objs ++ ts) !!! a) (seq (length objs) (length ts)) = ts.
Proof.
  revert objs. induction ts as [|t ts IH]; intros objs; simpl; [reflexivity|].
  rewrite list_lookup_total_middle by reflexivity. f_equal.
  specialize (IH (objs ++ [t])).
  rewrite length_app, Nat.add_1_r, <- app_assoc in IH. exact IH.
Qed.

Lemma load_document ts st :
  disk st !! self_path st = Some (Document (JList (map asdict ts))) ->
  _load st = (Ok tt, loaded ts st).
Proof.
  intros Hd. unfold _load, path_exists, bind at 1. rewrite Hd. simpl.
  unfold try_except_Exception, _load_body.
  assert (Hopen : open_and_load st = (Ok (JList (map asdict ts)), st)).
  { unfold open_and_load. now rewrite Hd. }
  rewrite (bind_Ok _ _ _ _ _ Hopen). unfold lift, bind at 1. simpl.
  rewrite (bind_Ok _ _ _ _ _ (for_each_from_dict ts st)). reflexivity.
Qed.

Lemma collection_loaded ts st : collection (loaded ts st) = ts.
Proof.
  unfold collection, loaded. simpl.
  rewrite list_lookup_total_middle by reflexivity. apply read_back.
Qed.

(** ** [find] and [delete] *)

Lemma find_run task_id st :
  find task_id st
  = (Ok (List.find (fun a => id (objects st !!! a) =? task_id) (lists st !!! self_tasks st)), st).
Proof. reflexivity. Qed.

Lemma find_absent {A} (f : A -> bool) l : (forall x, In x l -> f x = false) -> List.find f l = None.
Proof.
  induction l as [|x l IH]; intros H; simpl; [reflexivity|].
  rewrite (H x) by now left. apply IH. intros y Hy. apply H. now right.
Qed.

Lemma find_present {A} (f : A -> bool) l x :
  In x l -> f x = true -> exists y, List.find f l = Some y.
Proof.
  induction l as [|z l IH]; simpl; [contradiction|].
  intros [->|Hin] Hf.
  - rewrite Hf. eauto.
  - destruct (f z); eauto.
Qed.

Lemma in_ids task_id st :
  In task_id (ids st) <->
  exists a, In a (lists st !!! self_tasks st) /\ id (objects st !!! a) = task_id.
Proof.
  unfold ids, collection. rewrite map_map, in_map_iff. split.
  - intros (a & Ha & Hin). eauto.
  - intros (a & Hin & Ha). eauto.
Qed.

Lemma delete_run task_id st :
  delete task_id st =
  if (length (kept task_id st) =? length (lists st !!! self_tasks st))%nat
  then (Ok false, rebound task_id st)
  else (Ok true,
        with_disk (<[self_path st := Document (JList (map asdict (collection (rebound task_id st))))]>
                     (disk st)) (rebound task_id st)).
Proof.
  unfold delete, bind, get, new_list, assign_tasks, modify. simpl.
  rewrite list_lookup_total_middle by reflexivity. fold (kept task_id st).
  now destruct (length (kept task_id st) =? length (lists st !!! self_tasks st))%nat.
Qed.

Lemma collection_rebound task_id st :
  collection (rebound task_id st)
  = List.filter (fun t => negb (id t =? task_id)) (collection st).
Proof.
  unfold collection, rebound, kept. simpl.
  rewrite list_lookup_total_middle by reflexivity.
  now rewrite filter_map_swap.
Qed.

Lemma ids_rebound task_id st : ~ In task_id (ids (rebound task_id st)).
Proof.
  unfold ids. rewrite collection_rebound, in_map_iff.
  intros (t & Ht & Hin). apply filter_In in Hin as [_ Hne].
  rewrite Ht, Z.eqb_refl in Hne. discriminate.
Qed.

Lemma kept_all task_id st :
  ~ In task_id (ids st) -> kept task_id st = lists st !!! self_tasks st.
Proof.
  intros Hno. unfold kept. apply forallb_filter_id, forallb_forall.
  intros a Ha. apply negb_true_iff, Z.eqb_neq. intros Heq.
  apply Hno, in_ids. eauto.
Qed.

Lemma kept_fewer task_id st :
  In task_id (ids st) ->
  (length (kept task_id st) =? length (lists st !!! self_tasks st))%nat = false.
Proof.
  intros Hin. apply Nat.eqb_neq. intros Hlen.
  apply filter_length_forallb in Hlen. rewrite forallb_forall in Hlen.
  apply in_ids in Hin as (a & Ha & Hid). specialize (Hlen a Ha).
  rewrite Hid, Z.eqb_refl in Hlen. discriminate.
Qed.


(** C9. Once [delete] has returned, no task of the collection carries the
    given id, however many carried it before, and [find] returns nothing. *)
Theorem delete_leaves_no_task_with_id (task_id : Z) (st : state) :
  exists r st',
    delete task_id st = (Ok r, st') /\
    ~ In task_id (ids st') /\
    find task_id st' = (Ok None, st').
Proof.
  assert (Hfind : forall st', ~ In task_id (ids st') -> find task_id st' = (Ok None, st')).
  { intros st' Hno. rewrite find_run. rewrite find_absent; [reflexivity|].
    intros a Ha. apply Z.eqb_neq. intros Heq. apply Hno, in_ids. eauto. }
  rewrite delete_run.
  destruct (length (kept task_id st) =? length (lists st !!! self_tasks st))%nat.
  - exists false, (rebound task_id st). split; [reflexivity|].
    split; [apply ids_rebound|apply Hfind, ids_rebound].
  - eexists true, _. split; [reflexivity|].
    split; [apply ids_rebound|apply Hfind, ids_rebound].
Qed.

(** ** [update_status] *)


Lemma find_in_wf task_id st :
  wf st -> In task_id (ids st) ->
  exists a,
    List.find (fun a => id (objects st !!! a) =? task_id) (lists st !!! self_tasks st) = Some a /\
    id (objects st !!! a) = task_id /\ (a < length (objects st))%nat.
Proof.
  intros [_ Hobjs] Hin. apply in_ids in Hin as (b & Hb & Hid).
  destruct (find_present (fun a => id (objects st !!! a) =? task_id) _ b Hb) as [a Ha].
  { now apply Z.eqb_eq. }
  exists a. split; [exact Ha|]. apply find_some in Ha as [Hin Heq].
  split; [now apply Z.eqb_eq|].
  exact (proj1 (List.Forall_forall _ _) Hobjs a Hin).
Qed.

Lemma update_status_found task_id new_status now st a :
  List.find (fun a => id (objects st !!! a) =? task_id) (lists st !!! self_tasks st) = Some a ->
  (a < length (objects st))%nat ->
  update_status task_id new_status now st = (Ok true, after_update a new_status now st).
Proof.
  intros Hfind Ha. unfold update_status. rewrite (bind_Ok _ _ _ _ _ (find_run task_id st)).
  cbv beta. rewrite Hfind. unfold setattr, _save, modify, bind, ret, after_update. simpl.
  rewrite list_lookup_total_insert_eq by exact Ha.
  now rewrite list_insert_insert_eq.
Qed.


(** ** Construction and [_load] *)

(** One step of [from_dict] against the same step of [decode]: a lookup or
    a cast that does not return ends both. *)
Ltac step_field :=
  lazymatch goal with
  | |- bind (lift ?o) _ _ = _ =>
      destruct o; [|reflexivity..];
      unfold bind at 1, lift at 1; cbn [and_then]; cbv beta iota
  end.

Lemma from_dict_run data st :
  from_dict data st =
  match decode data with
  | Ok t => (Ok (length (objects st)), with_objects (objects st ++ [t]) st)
  | Raise e => (Raise e, st)
  | Untyped => (Untyped, st)
  end.
Proof.
  unfold from_dict, decode. do 14 step_field. reflexivity.
Qed.

Lemma with_objects_twice o1 o2 st : with_objects o2 (with_objects o1 st) = with_objects o2 st.
Proof. reflexivity. Qed.

Lemma for_each_from_dict_run items st :
  exists made,
    for_each from_dict items st =
    (match decode_all items with
     | Ok ts => Ok (seq (length (objects st)) (length ts))
     | Raise e => Raise e
     | Untyped => Untyped
     end, with_objects (objects st ++ made) st) /\
    (forall ts, decode_all items = Ok ts -> made = ts).
Proof.
  revert st. induction items as [|item rest IH]; intros st.
  - exists []. simpl. unfold ret. rewrite app_nil_r. split; [now destruct st|].
    now intros ts [= <-].
  - simpl. unfold bind at 1. rewrite from_dict_run.
    destruct (decode item) as [t|e|]; cbn [and_then].
    + destruct (IH (with_objects (objects st ++ [t]) st)) as (made & Hrun & Hmade).
      exists (t :: made). unfold bind at 1. rewrite Hrun. simpl.
      rewrite length_app, Nat.add_1_r, <- app_assoc. simpl.
      destruct (decode_all rest) as [ts|e|]; cbn [and_then]; unfold ret;
        (split; [reflexivity|]); intros ts' [=]; subst.
      now rewrite (Hmade ts).
    + exists []. rewrite app_nil_r. split; [now destruct st|discriminate].
    + exists []. rewrite app_nil_r. split; [now destruct st|discriminate].
Qed.

Lemma open_and_load_run f st :
  disk st !! self_path st = Some f ->
  open_and_load st =
  (match f with
   | Inaccessible => Raise OSError
   | Unreadable => Raise OSError
   | BadEncoding => Raise UnicodeDecodeError
   | BadJson => Raise JSONDecodeError
   | Document j => Ok j
   end, st).
Proof. intros Hd. unfold open_and_load. rewrite Hd. now destruct f. Qed.


Lemma load_present f st :
  disk st !! self_path st = Some f -> f <> Inaccessible ->
  _load st =
  try_except_Exception _load_body
    (fun e => do st <- get; console_print (LoadError e (self_path st));;
              do l <- new_list []; assign_tasks l) st.
Proof.
  intros Hd Hf. unfold _load, bind at 1, path_exists. rewrite Hd.
  now destruct f.
Qed.

Lemma load_inaccessible st :
  disk st !! self_path st = Some Inaccessible -> _load st = (Raise OSError, st).
Proof. intros Hd. unfold _load, bind at 1, path_exists. now rewrite Hd. Qed.

Lemma load_body_run f st :
  disk st !! self_path st = Some f ->
  exists made,
    match read_tasks f with
    | Ok ts => _load_body st = (Ok tt, loaded ts st)
    | Raise e => _load_body st = (Raise e, with_objects (objects st ++ made) st)
    | Untyped => _load_body st = (Untyped, with_objects (objects st ++ made) st)
    end.
Proof.
  intros Hd. pose proof (open_and_load_run f st Hd) as Hopen.
  assert (Hsame : with_objects (objects st ++ []) st = st).
  { rewrite app_nil_r. now destruct st. }
  unfold _load_body.
  destruct f as [| | | |j]; simpl;
    try (exists []; rewrite Hsame; now apply bind_Raise).
  rewrite (bind_Ok _ _ _ _ _ Hopen).
  destruct (py_iter j) as [items|e|]; cbn [and_then].
  - destruct (for_each_from_dict_run items st) as (made & Hrun & Hmade).
    exists made. rewrite (bind_Ok _ _ _ items st) by reflexivity.
    destruct (decode_all items) as [ts|e|].
    + rewrite (bind_Ok _ _ _ _ _ Hrun), (Hmade ts eq_refl). reflexivity.
    + now apply bind_Raise.
    + now apply bind_Untyped.
  - exists []. rewrite Hsame. now apply bind_Raise.
  - exists []. rewrite Hsame. now apply bind_Untyped.
Qed.

Lemma getitem_Exception data key e : getitem data key = Raise e -> is_Exception e = true.
Proof.
  destruct data; simpl; try (now intros [= <-]).
  destruct (assoc key entries); [discriminate|now intros [= <-]].
Qed.

Lemma as_int_no_raise e v : as_int v <> Raise e.
Proof. now destruct v. Qed.

Lemma as_str_no_raise e v : as_str v <> Raise e.
Proof. now destruct v. Qed.

(** The casts never raise: an exception of [decode] is that of a lookup. *)
Ltac step_cast :=
  match goal with
  | |- and_then (as_int ?v) _ = Raise ?e -> _ =>
      let H := fresh "H" in
      destruct (as_int v) eqn:H; cbn [and_then];
      [ | intros _; now destruct (as_int_no_raise _ _ H) | discriminate ]
  | |- and_then (as_str ?v) _ = Raise ?e -> _ =>
      let H := fresh "H" in
      destruct (as_str v) eqn:H; cbn [and_then];
      [ | intros _; now destruct (as_str_no_raise _ _ H) | discriminate ]
  end.

Ltac step_decode :=
  match goal with
  | |- and_then (getitem ?d ?k) _ = Raise ?e -> _ =>
      let H := fresh "H" in
      destruct (getitem d k) eqn:H; cbn [and_then];
      [ | intros [= <-]; exists k; split; [simpl; tauto|exact H] | discriminate ]
  end.

Lemma decode_Raise data e :
  decode data = Raise e ->
  exists k, In k ["id"; "title"; "description"; "status"; "priority"; "created_at";
                  "updated_at"] /\
            getitem data k = Raise e.
Proof. unfold decode. do 7 step_decode. do 7 step_cast. discriminate. Qed.

Lemma decode_Exception data e : decode data = Raise e -> is_Exception e = true.
Proof. intros H. destruct (decode_Raise data e H) as (k & _ & Hk). now apply getitem_Exception in Hk. Qed.

Lemma decode_all_Exception items e : decode_all items = Raise e -> is_Exception e = true.
Proof.
  induction items as [|item rest IH]; simpl; [discriminate|].
  destruct (decode item) as [t|e'|] eqn:Hd; cbn [and_then].
  - destruct (decode_all rest); cbn [and_then]; try discriminate.
    intros [= <-]. now apply IH.
  - intros [= <-]. now apply decode_Exception in Hd.
  - discriminate.
Qed.

Lemma read_tasks_Exception f e : read_tasks f = Raise e -> is_Exception e = true.
Proof.
  destruct f as [| | | |j]; simpl; try (now intros [= <-]).
  destruct j; simpl; try (now intros [= <-]); apply decode_all_Exception.
Qed.

Lemma init_run path st : __init__ path st = _load (before_load path st).
Proof. reflexivity. Qed.

Lemma collection_fresh_empty p o l d c : collection (mkState p (length l) o (l ++ [[]]) d c) = [].
Proof. unfold collection. simpl. now rewrite list_lookup_total_middle. Qed.

(** C7, where the code departs from it. [exists()] is called before the
    [try] of [_load]. When [os.stat] fails with an error that [exists] does
    not take for absence (no permission to search the directory, a name that
    is too long), the [OSError] leaves [_load] and [__init__]: construction
    fails, nothing is reported and no fallback takes place. *)
Theorem init_raises_when_exists_raises (path : string) (st : state) :
  disk st !! path = Some Inaccessible ->
  __init__ path st = (Raise OSError, before_load path st) /\
  console (before_load path st) = console st.
Proof.
  intros Hd. split; [|reflexivity].
  rewrite init_run. now apply load_inaccessible.
Qed.

(** ** [all] *)

Lemma all_run st :
  all st = (Ok (length (lists st)), with_lists (lists st ++ [lists st !!! self_tasks st]) st).
Proof. reflexivity. Qed.

(** C8, as the code has it. [all()] returns a new list object holding the
    same Task objects in the same order and leaves the store as it was.
    Whatever the caller then puts into that list, the collection of the
    store is unchanged; but the items are the Task objects of the store, so
    an attribute set through an item of the list is set in the store. *)
Theorem all_returns_shallow_copy (st : state) :
  wf st ->
  exists l st',
    all st = (Ok l, st') /\
    l <> self_tasks st' /\
    lists st' !!! l = lists st' !!! self_tasks st' /\
    map (fun a => objects st' !!! a) (lists st' !!! l) = collection st /\
    collection st' = collection st /\
    objects st' = objects st /\ self_tasks st' = self_tasks st /\
    disk st' = disk st /\ console st' = console st /\
    (forall items, collection (with_lists (<[l := items]> (lists st')) st') = collection st') /\
    (forall a st'', list_append l a st' = (Ok tt, st'') -> collection st'' = collection st') /\
    (forall a f st'',
        In a (lists st' !!! l) -> setattr a f st' = (Ok tt, st'') ->
        In a (lists st'' !!! self_tasks st'') /\
        objects st'' !!! a = f (objects st' !!! a)).
Proof.
  intros [Hl Hobjs]. exists (length (lists st)).
  exists (with_lists (lists st ++ [lists st !!! self_tasks st]) st).
  rewrite all_run. unfold collection. simpl.
  rewrite list_lookup_total_middle by reflexivity.
  rewrite (lookup_total_app_l (lists st)) by exact Hl.
  split; [reflexivity|]. split; [lia|].
  do 7 (split; [reflexivity|]).
  split; [|split].
  - intros items. rewrite list_lookup_total_insert_ne by lia.
    now rewrite (lookup_total_app_l (lists st)) by exact Hl.
  - intros a st'' [= <-]. simpl. rewrite list_lookup_total_insert_ne by lia.
    now rewrite (lookup_total_app_l (lists st)) by exact Hl.
  - intros a f st'' Hin [= <-]. simpl.
    rewrite (lookup_total_app_l (lists st)) by exact Hl. split; [exact Hin|].
    apply list_lookup_total_insert_eq.
    exact (proj1 (List.Forall_forall _ _) Hobjs a Hin).
Qed.

(** ** Instances *)

Lemma wf_empty_store : wf empty_store.
Proof. split; vm_compute; [lia|constructor]. Qed.

Lemma wf_store_one : wf store_one.
Proof. split; vm_compute; [lia|repeat constructor]. Qed.

Lemma wf_store_ahead : wf store_ahead.
Proof. split; vm_compute; [lia|repeat constructor]. Qed.

(** C1, on two calls in an empty store. *)
Lemma add_assigns_fresh_increasing_ids_witness :
  exists new st',
    add_all [("Buy milk", "", 2, "2026-11-03T20:15:00");
             ("Write report", "", 5, "2026-11-03T20:15:01")] empty_store = (Ok new, st') /\
    ids st' = ids empty_store ++ map (fun a => id (objects st' !!! a)) new /\
    NoDup (map (fun a => id (objects st' !!! a)) new).
Proof.
  destruct (add_assigns_fresh_increasing_ids
              [("Buy milk", "", 2, "2026-11-03T20:15:00");
               ("Write report", "", 5, "2026-11-03T20:15:01")] empty_store wf_empty_store)
    as (new & st' & Hrun & Hids & Hnd & _).
  exists new, st'. split; [exact Hrun|]. split; [exact Hids|exact Hnd].
Defined.




(** C8, on the store holding one task. *)
Lemma all_returns_shallow_copy_witness :
  exists l st',
    all store_one = (Ok l, st') /\ l <> self_tasks st' /\ collection st' = collection store_one.
Proof.
  destruct (all_returns_shallow_copy store_one wf_store_one)
    as (l & st' & Hrun & Hne & _ & _ & Hc & _).
  exists l, st'. split; [exact Hrun|]. split; [exact Hne|exact Hc].
Defined.

(** C8 as stated fails: a caller that takes [all()] and sets the status of
    the first item changes the task held by the store. *)
Lemma all_items_are_shared :
  exists st',
    mark_first_done store_one = (Ok tt, st') /\
    map status (collection store_one) = ["todo"] /\
    map status (collection st') = ["done"].
Proof.
  eexists. split; [vm_compute; reflexivity|]. split; vm_compute; reflexivity.
Qed.

(** A file with two tasks of id 1 and one of id 2: [delete(1)] removes both. *)
Example delete_removes_both_duplicates :
  let doc := JList [asdict (mkTask 1 "a" "" "todo" 1 "t" "t");
                    asdict (mkTask 2 "b" "" "todo" 2 "t" "t");
                    asdict (mkTask 1 "c" "" "done" 3 "t" "t")] in
  let st := snd (__init__ "tasks.json" (with_disk {[ "tasks.json" := Document doc ]} boot)) in
  ids st = [1; 2; 1] /\
  fst (delete 1 st) = Ok true /\
  ids (snd (delete 1 st)) = [2].
Proof. vm_compute. repeat split. Qed.

(** C7, on a path that [os.stat] cannot look up. *)
Lemma init_raises_when_exists_raises_witness :
  __init__ "tasks.json" (with_disk {[ "tasks.json" := Inaccessible ]} boot)
  = (Raise OSError,
     before_load "tasks.json" (with_disk {[ "tasks.json" := Inaccessible ]} boot)) /\
  console (before_load "tasks.json" (with_disk {[ "tasks.json" := Inaccessible ]} boot)) = [].
Proof.
  apply (init_raises_when_exists_raises "tasks.json"
           (with_disk {[ "tasks.json" := Inaccessible ]} boot)).
  reflexivity.
Defined.

(** A file that is not JSON, and a record without its title: the store is
    built empty and the panel names the exception. *)
Example init_reports_bad_json :
  let st := snd (__init__ "tasks.json" (with_disk {[ "tasks.json" := BadJson ]} boot)) in
  collection st = [] /\ console st = [LoadError JSONDecodeError "tasks.json"].
Proof. vm_compute. split; reflexivity. Qed.

Example init_reports_missing_key :
  let doc := JList [JDict [("id", JInt 1)]] in
  let st := snd (__init__ "tasks.json" (with_disk {[ "tasks.json" := Document doc ]} boot)) in
  collection st = [] /\ console st = [LoadError (KeyError "title") "tasks.json"].
Proof. vm_compute. split; reflexivity. Qed.

(** The keys are looked up before any value is stored: a record whose id is
    a string and whose title is missing fails on the title. *)
Example from_dict_looks_up_before_it_stores :
  from_dict (JDict [("id", JStr "1")]) boot = (Raise (KeyError "title"), boot).
Proof. reflexivity. Qed.

End TaskTrackerFacts.

(** * Further properties of the task tracker *)

Section TaskTrackerMore.
Import TaskTracker.

(** ** Reading the heap after an update *)




(** A field that [f] does not touch reads the same after [objs[a] = f(objs[a])]. *)
Lemma untouched_field {B} (proj : Task -> B) (f : Task -> Task) (objs : list Task) a b :
  (forall t, proj (f t) = proj t) ->
  proj ((<[a := f (objs !!! a)]> objs) !!! b) = proj (objs !!! b).
Proof.
  intros Hf. rewrite list_lookup_total_insert.
  destruct (decide (a = b /\ (a < length objs)%nat)) as [[-> _]|_]; [apply Hf|reflexivity].
Qed.

(** ** [filter_by_status] *)


(** ** [find] *)

Lemma find_first {A} (f : A -> bool) (l : list A) (a : A) :
  List.find f l = Some a <->
  exists l1 l2, l = l1 ++ a :: l2 /\ f a = true /\ Forall (fun b => f b = false) l1.
Proof.
  split.
  - induction l as [|x l IH]; simpl; [discriminate|].
    destruct (f x) eqn:Hx.
    + intros [= <-]. exists [], l. repeat split; [exact Hx|constructor].
    + intros H. destruct (IH H) as (l1 & l2 & -> & Ha & Hl1).
      exists (x :: l1), l2. repeat split; [exact Ha|now constructor].
  - intros (l1 & l2 & -> & Ha & Hl1).
    induction Hl1 as [|x l1 Hx _ IH]; simpl; [now rewrite Ha|now rewrite Hx].
Qed.

(** X2. [find] returns the first task of the collection that carries the id:
    every task before it has another id; it returns nothing exactly when no
    task carries the id. In both cases the store is left as it was. *)
Theorem find_returns_first_match (task_id : Z) (st : state) :
  (forall a, find task_id st = (Ok (Some a), st) <->
     exists l1 l2,
       lists st !!! self_tasks st = l1 ++ a :: l2 /\
       id (objects st !!! a) = task_id /\
       Forall (fun b => id (objects st !!! b) <> task_id) l1) /\
  (find task_id st = (Ok None, st) <-> ~ In task_id (ids st)) /\
  snd (find task_id st) = st.
Proof.
  rewrite find_run. split; [|split; [|reflexivity]].
  - intros a. split.
    + intros [= H]. apply find_first in H as (l1 & l2 & Hl & Ha & Hl1).
      exists l1, l2. split; [exact Hl|]. split; [now apply Z.eqb_eq|].
      eapply Forall_impl; [exact Hl1|]. simpl. intros b. apply Z.eqb_neq.
    + intros (l1 & l2 & Hl & Ha & Hl1). do 2 f_equal. apply find_first.
      exists l1, l2. split; [exact Hl|]. split; [now apply Z.eqb_eq|].
      eapply Forall_impl; [exact Hl1|]. simpl. intros b. apply Z.eqb_neq.
  - split.
    + intros [= H] Hin. apply in_ids in Hin as (a & Ha & Hid).
      pose proof (find_none _ _ H a Ha) as Hf. simpl in Hf.
      rewrite Hid, Z.eqb_refl in Hf. discriminate.
    + intros Hno. do 2 f_equal. apply find_absent.
      intros a Ha. apply Z.eqb_neq. intros Heq. apply Hno, in_ids. eauto.
Qed.



(** ** What [update_status] keeps *)

Lemma update_status_run task_id s now st :
  update_status task_id s now st =
  match List.find (fun a => id (objects st !!! a) =? task_id) (lists st !!! self_tasks st) with
  | None => (Ok false, st)
  | Some a =>
      let objs1 := <[a := set_status s (objects st !!! a)]> (objects st) in
      let st2 := with_objects (<[a := set_updated_at now (objs1 !!! a)]> objs1) st in
      (Ok true,
       with_disk (<[self_path st := Document (JList (map asdict (collection st2)))]> (disk st)) st2)
  end.
Proof.
  unfold update_status. rewrite (bind_Ok _ _ _ _ _ (find_run task_id st)). cbv beta.
  now destruct (List.find _ _).
Qed.

Lemma update_status_keeps_proj {B} (proj : Task -> B) task_id s now st :
  (forall u t, proj (set_status u t) = proj t) ->
  (forall u t, proj (set_updated_at u t) = proj t) ->
  map proj (collection (snd (update_status task_id s now st))) = map proj (collection st).
Proof.
  intros H1 H2. rewrite update_status_run.
  destruct (List.find _ _) as [a|]; [|reflexivity].
  unfold collection. simpl. rewrite !map_map. apply map_ext. intros b.
  rewrite (untouched_field proj (set_updated_at now)) by apply H2.
  now rewrite (untouched_field proj (set_status s)) by apply H1.
Qed.

Lemma update_status_returns task_id s now st :
  exists r, fst (update_status task_id s now st) = Ok r /\
            lists (snd (update_status task_id s now st)) = lists st /\
            self_tasks (snd (update_status task_id s now st)) = self_tasks st /\
            length (objects (snd (update_status task_id s now st))) = length (objects st).
Proof.
  rewrite update_status_run. destruct (List.find _ _) as [a|].
  - exists true. simpl. repeat split. now rewrite !length_insert.
  - exists false. repeat split.
Qed.

(** X4. [update_status] never changes which tasks the store holds: the ids,
    titles, descriptions, priorities and creation stamps of the collection,
    its length and its order are the same afterwards, whatever it returns. *)
Theorem update_status_keeps_other_fields (task_id : Z) (s now : string) (st : state) :
  exists r st',
    update_status task_id s now st = (Ok r, st') /\
    ids st' = ids st /\
    map title (collection st') = map title (collection st) /\
    map description (collection st') = map description (collection st) /\
    map priority (collection st') = map priority (collection st) /\
    map created_at (collection st') = map created_at (collection st) /\
    length (collection st') = length (collection st) /\
    lists st' = lists st /\ self_tasks st' = self_tasks st.
Proof.
  destruct (update_status_returns task_id s now st) as (r & Hr & Hl & Hs & _).
  exists r, (snd (update_status task_id s now st)).
  split; [rewrite <- Hr; now destruct (update_status task_id s now st)|].
  unfold ids.
  split; [now apply update_status_keeps_proj|]. split; [now apply update_status_keeps_proj|].
  split; [now apply update_status_keeps_proj|]. split; [now apply update_status_keeps_proj|].
  split; [now apply update_status_keeps_proj|].
  split; [|split; assumption].
  rewrite <- (length_map id (collection (snd _))), <- (length_map id (collection st)).
  f_equal. now apply update_status_keeps_proj.
Qed.

(** ** [add] followed by [find] and [delete] *)

Lemma old_ids_below_new ttl descr prio now st b :
  wf st -> In b (lists st !!! self_tasks st) ->
  id (objects (after_add ttl descr prio now st) !!! b) < next_id_value (ids st).
Proof.
  intros [_ Hobjs] Hb. unfold after_add. simpl.
  rewrite lookup_total_old by exact (proj1 (List.Forall_forall _ _) Hobjs b Hb).
  apply next_id_value_above, in_ids. eauto.
Qed.

Lemma list_after_add ttl descr prio now st :
  wf st ->
  lists (after_add ttl descr prio now st) !!! self_tasks (after_add ttl descr prio now st)
  = (lists st !!! self_tasks st) ++ [length (objects st)].
Proof.
  intros [Hl _]. unfold after_add. simpl. now rewrite list_lookup_total_insert_eq.
Qed.

(** X5. The task [add] returns is the one [find] returns for its id. *)
Theorem add_then_find (ttl descr : string) (prio : Z) (now : string) (st : state) :
  wf st ->
  exists a st',
    add ttl descr prio now st = (Ok a, st') /\
    find (id (objects st' !!! a)) st' = (Ok (Some a), st').
Proof.
  intros Hwf. exists (length (objects st)), (after_add ttl descr prio now st).
  rewrite add_run. split; [reflexivity|].
  rewrite find_run, read_added_task. do 2 f_equal.
  apply find_first. exists (lists st !!! self_tasks st), [].
  split; [now apply list_after_add|]. split.
  - rewrite read_added_task. simpl. apply Z.eqb_refl.
  - apply List.Forall_forall. intros b Hb. apply Z.eqb_neq. intros Heq.
    pose proof (old_ids_below_new ttl descr prio now st b Hwf Hb) as H.
    rewrite Heq in H. simpl in H. lia.
Qed.

Lemma add_then_find_witness :
  exists a st',
    add "Y" "" 2 "2026-11-03T20:16:00" store_one = (Ok a, st') /\
    find (id (objects st' !!! a)) st' = (Ok (Some a), st').
Proof. exact (add_then_find "Y" "" 2 "2026-11-03T20:16:00" store_one wf_store_one). Defined.

Lemma filter_keeps_all {A} (f : A -> bool) (l : list A) :
  (forall x, In x l -> f x = true) -> List.filter f l = l.
Proof. intros H. now apply forallb_filter_id, forallb_forall. Qed.

(** X6. Deleting the task that [add] has just returned gives back the
    collection as it was before the [add], and the next [add] is then given
    the same id again: an id is reused once the task with the greatest id
    is gone. *)
Theorem add_then_delete_restores (ttl descr : string) (prio : Z) (now : string) (st : state) :
  wf st ->
  exists a st1 st2,
    add ttl descr prio now st = (Ok a, st1) /\
    delete (id (objects st1 !!! a)) st1 = (Ok true, st2) /\
    collection st2 = collection st /\
    next_id st2 = (Ok (id (objects st1 !!! a)), st2).
Proof.
  intros Hwf. exists (length (objects st)), (after_add ttl descr prio now st).
  rewrite add_run, read_added_task. simpl.
  set (st1 := after_add ttl descr prio now st). set (nid := next_id_value (ids st)).
  assert (Hin : In nid (ids st1)).
  { unfold st1. rewrite ids_after_add by exact Hwf. apply in_or_app. right. now left. }
  assert (Hc : collection (rebound nid st1) = collection st).
  { rewrite collection_rebound. unfold st1. rewrite collection_after_add by exact Hwf.
    rewrite List.filter_app. simpl. unfold nid at 2. rewrite Z.eqb_refl. simpl.
    rewrite app_nil_r. apply filter_keeps_all. intros t Ht.
    apply negb_true_iff, Z.eqb_neq.
    assert (id t < nid); [|lia]. apply next_id_value_above. unfold ids. now apply in_map. }
  set (st2 := with_disk
                (<[self_path st1 := Document (JList (map asdict (collection (rebound nid st1))))]>
                   (disk st1)) (rebound nid st1)).
  assert (Hc2 : collection st2 = collection st) by exact Hc.
  exists st2. split; [reflexivity|].
  split; [now rewrite delete_run, (kept_fewer _ _ Hin)|]. split; [exact Hc2|].
  rewrite next_id_run. unfold ids. now rewrite Hc2.
Qed.

Lemma add_then_delete_restores_witness :
  exists a st1 st2,
    add "Y" "" 2 "2026-11-03T20:16:00" store_one = (Ok a, st1) /\
    delete (id (objects st1 !!! a)) st1 = (Ok true, st2) /\
    collection st2 = collection store_one.
Proof.
  destruct (add_then_delete_restores "Y" "" 2 "2026-11-03T20:16:00" store_one wf_store_one)
    as (a & st1 & st2 & Hadd & Hdel & Hc & _).
  exists a, st1, st2. split; [exact Hadd|]. split; [exact Hdel|exact Hc].
Defined.

(** ** Durability *)

Lemma reopen ts st :
  disk st !! self_path st = Some (Document (JList (map asdict ts))) ->
  exists st', __init__ (self_path st) st = (Ok tt, st') /\ collection st' = ts.
Proof.
  intros Hd. exists (loaded ts (before_load (self_path st) st)).
  split; [|apply collection_loaded].
  rewrite init_run. now apply load_document.
Qed.

(** X7. After an [add], after an [update_status] that returned true and
    after a [delete] that returned true, a store built anew on the same path
    holds the same tasks, in the same order, as the store in memory. *)
Theorem successful_mutations_are_durable (st : state) :
  (forall ttl descr prio now a st1,
      add ttl descr prio now st = (Ok a, st1) ->
      exists st2, __init__ (self_path st1) st1 = (Ok tt, st2) /\ collection st2 = collection st1) /\
  (forall task_id s now st1,
      update_status task_id s now st = (Ok true, st1) ->
      exists st2, __init__ (self_path st1) st1 = (Ok tt, st2) /\ collection st2 = collection st1) /\
  (forall task_id st1,
      delete task_id st = (Ok true, st1) ->
      exists st2, __init__ (self_path st1) st1 = (Ok tt, st2) /\ collection st2 = collection st1).
Proof.
  split; [|split].
  - intros ttl descr prio now a st1. rewrite add_run. intros [= _ <-].
    apply reopen, disk_after_add.
  - intros task_id s now st1. rewrite update_status_run.
    destruct (List.find _ _) as [a|]; [|discriminate].
    intros [= <-]. apply reopen. simpl. now rewrite lookup_insert_eq.
  - intros task_id st1. rewrite delete_run.
    destruct (length (kept task_id st) =? length (lists st !!! self_tasks st))%nat;
      [discriminate|].
    intros [= <-]. apply reopen. simpl. now rewrite lookup_insert_eq.
Qed.

(** X8. A second [delete] of the same id returns false and changes neither
    the collection nor the file system. *)
Theorem delete_twice_returns_false (task_id : Z) (st : state) :
  exists r st1 st2,
    delete task_id st = (Ok r, st1) /\
    delete task_id st1 = (Ok false, st2) /\
    collection st2 = collection st1 /\ disk st2 = disk st1.
Proof.
  assert (Hsecond : forall st1, ~ In task_id (ids st1) ->
            delete task_id st1 = (Ok false, rebound task_id st1) /\
            collection (rebound task_id st1) = collection st1).
  { intros st1 Hno. rewrite delete_run, (kept_all _ _ Hno), Nat.eqb_refl.
    split; [reflexivity|]. unfold collection, rebound. simpl.
    rewrite list_lookup_total_middle by reflexivity. now rewrite (kept_all _ _ Hno). }
  rewrite delete_run.
  destruct (length (kept task_id st) =? length (lists st !!! self_tasks st))%nat.
  - destruct (Hsecond (rebound task_id st) (ids_rebound task_id st)) as [H1 H2].
    exists false, (rebound task_id st), (rebound task_id (rebound task_id st)).
    split; [reflexivity|]. split; [exact H1|]. split; [exact H2|reflexivity].
  - set (st1 := with_disk _ (rebound task_id st)).
    assert (Hno : ~ In task_id (ids st1)) by apply ids_rebound.
    destruct (Hsecond st1 Hno) as [H1 H2].
    exists true, st1, (rebound task_id st1).
    split; [reflexivity|]. split; [exact H1|]. split; [exact H2|reflexivity].
Qed.

(** ** Distinct ids *)

Lemma NoDup_map_filter {A B} (f : A -> B) (p : A -> bool) (l : list A) :
  NoDup (map f l) -> NoDup (map f (List.filter p l)).
Proof.
  induction l as [|x l IH]; simpl; [constructor|].
  intros H. apply NoDup_cons in H as [Hx Hl]. destruct (p x); simpl; [|now apply IH].
  apply NoDup_cons. split; [|now apply IH].
  intros Hin. apply Hx. apply list_elem_of_In in Hin. apply list_elem_of_In.
  apply in_map_iff in Hin as (y & Hy & Hin).
  apply in_map_iff. exists y. split; [exact Hy|]. now apply filter_In in Hin.
Qed.

Lemma wf_after_update_status task_id s now st :
  wf st -> wf (snd (update_status task_id s now st)).
Proof.
  intros [Hl Hobjs].
  destruct (update_status_returns task_id s now st) as (r & _ & Hlists & Hself & Hlen).
  unfold wf. now rewrite Hlists, Hself, Hlen.
Qed.

Lemma wf_rebound task_id st : wf st -> wf (rebound task_id st).
Proof.
  intros [Hl Hobjs]. unfold wf, rebound. simpl. split.
  - rewrite length_app. simpl. lia.
  - rewrite list_lookup_total_middle by reflexivity. unfold kept.
    apply List.Forall_forall. intros a Ha. apply filter_In in Ha as [Ha _].
    exact (proj1 (List.Forall_forall _ _) Hobjs a Ha).
Qed.

Lemma wf_after_delete task_id st : wf st -> wf (snd (delete task_id st)).
Proof.
  intros Hwf. rewrite delete_run.
  destruct (length (kept task_id st) =? length (lists st !!! self_tasks st))%nat;
    now apply wf_rebound.
Qed.

Lemma collection_after_delete task_id st :
  collection (snd (delete task_id st))
  = List.filter (fun t => negb (id t =? task_id)) (collection st).
Proof.
  rewrite delete_run.
  destruct (length (kept task_id st) =? length (lists st !!! self_tasks st))%nat; simpl.
  - apply collection_rebound.
  - exact (collection_rebound task_id st).
Qed.

(** X9. Pairwise distinct ids are an invariant of the three mutations: from
    a store whose ids are distinct, [add], [update_status] and [delete] lead
    to a store whose ids are distinct. *)
Theorem distinct_ids_are_kept (st : state) :
  wf st -> NoDup (ids st) ->
  (forall ttl descr prio now,
      wf (snd (add ttl descr prio now st)) /\ NoDup (ids (snd (add ttl descr prio now st)))) /\
  (forall task_id s now,
      wf (snd (update_status task_id s now st)) /\
      NoDup (ids (snd (update_status task_id s now st)))) /\
  (forall task_id,
      wf (snd (delete task_id st)) /\ NoDup (ids (snd (delete task_id st)))).
Proof.
  intros Hwf Hnd. split; [|split].
  - intros ttl descr prio now. rewrite add_run. simpl.
    split; [now apply wf_after_add|]. rewrite ids_after_add by exact Hwf.
    apply NoDup_app. split; [exact Hnd|]. split; [|apply NoDup_singleton].
    intros i Hi Hnew. apply list_elem_of_In in Hi. apply list_elem_of_In in Hnew.
    destruct Hnew as [<-|[]]. pose proof (next_id_value_above _ _ Hi). lia.
  - intros task_id s now. split; [now apply wf_after_update_status|].
    unfold ids. now rewrite update_status_keeps_proj.
  - intros task_id. split; [now apply wf_after_delete|].
    unfold ids. rewrite collection_after_delete. now apply NoDup_map_filter.
Qed.

Lemma distinct_ids_are_kept_witness :
  NoDup (ids (snd (add "Y" "" 2 "2026-11-03T20:16:00" store_one))).
Proof.
  apply (distinct_ids_are_kept store_one wf_store_one).
  vm_compute. repeat constructor; intros H; inversion H.
Defined.

Lemma same_key_same_item {A B} (f : A -> B) (l : list A) x y :
  NoDup (map f l) -> In x l -> In y l -> f x = f y -> x = y.
Proof.
  induction l as [|z l IH]; simpl; [contradiction|].
  intros H. apply NoDup_cons in H as [Hz Hl].
  intros [->|Hx] [->|Hy] Heq; auto.
  - exfalso. apply Hz, list_elem_of_In. rewrite Heq. now apply in_map.
  - exfalso. apply Hz, list_elem_of_In. rewrite <- Heq. now apply in_map.
Qed.

(** X10. In a store with distinct ids, [update_status] called with the id of
    a task of the collection changes this very task: it gets the status and
    the stamp, and every other Task object stays as it was. *)
Theorem update_status_by_id_of_task (a : addr) (s now : string) (st : state) :
  wf st -> NoDup (ids st) -> In a (lists st !!! self_tasks st) ->
  exists st',
    update_status (id (objects st !!! a)) s now st = (Ok true, st') /\
    status (objects st' !!! a) = s /\
    updated_at (objects st' !!! a) = now /\
    (forall b, b <> a -> objects st' !!! b = objects st !!! b).
Proof.
  intros Hwf Hnd Ha.
  assert (Hin : In (id (objects st !!! a)) (ids st)) by (apply in_ids; eauto).
  destruct (find_in_wf _ _ Hwf Hin) as (a' & Hfind & Hid & Hlt).
  assert (a' = a) as ->.
  { apply find_some in Hfind as [Ha' _].
    apply (same_key_same_item (fun b => id (objects st !!! b)) (lists st !!! self_tasks st));
      try assumption.
    unfold ids, collection in Hnd. now rewrite map_map in Hnd. }
  exists (after_update a s now st).
  split; [now apply update_status_found|].
  unfold after_update. simpl. rewrite list_lookup_total_insert_eq by exact Hlt.
  split; [reflexivity|]. split; [reflexivity|].
  intros b Hb. now apply list_lookup_total_insert_ne.
Qed.

Lemma update_status_by_id_of_task_witness :
  exists st',
    update_status (id (objects store_one !!! 0%nat)) "done" "2026-11-03T20:16:00" store_one
      = (Ok true, st') /\
    status (objects st' !!! 0%nat) = "done".
Proof.
  destruct (update_status_by_id_of_task 0%nat "done" "2026-11-03T20:16:00" store_one
              wf_store_one)
    as (st' & Hrun & Hst & _).
  - vm_compute. repeat constructor; intros H; inversion H.
  - vm_compute. now left.
  - exists st'. split; [exact Hrun|exact Hst].
Defined.

(** ** Files that are not a list of well-formed records *)





(** ** Records with more keys than the fields *)

Lemma assoc_of_entry (d : list (string * json)) k v :
  NoDup (map fst d) -> In (k, v) d -> assoc k d = Some v.
Proof.
  induction d as [|[k' v'] d IH]; simpl; [contradiction|].
  intros H. apply NoDup_cons in H as [Hk Hd]. intros [[= -> ->]|Hin].
  - now rewrite String.eqb_refl.
  - destruct (String.eqb k' k) eqn:Heq; [|now apply IH].
    apply String.eqb_eq in Heq as ->. exfalso. apply Hk, list_elem_of_In.
    apply in_map_iff. now exists (k, v).
Qed.

(** X12. [Task.from_dict] reads a record by its keys: a dict that holds the
    seven entries of a task, in any order and among any other keys, gives
    that task. *)
Theorem from_dict_ignores_order_and_other_keys
    (t : Task) (d : list (string * json)) (st : state) :
  NoDup (map fst d) -> (forall kv, In kv (fields t) -> In kv d) ->
  from_dict (JDict d) st = (Ok (length (objects st)), with_objects (objects st ++ [t]) st).
Proof.
  intros Hnd Hin. rewrite from_dict_run. unfold decode, getitem.
  destruct t as [i ttl descr s p c u]. unfold fields in Hin. simpl in Hin.
  rewrite (assoc_of_entry d "id" (JInt i)), (assoc_of_entry d "title" (JStr ttl)),
    (assoc_of_entry d "description" (JStr descr)), (assoc_of_entry d "status" (JStr s)),
    (assoc_of_entry d "priority" (JInt p)), (assoc_of_entry d "created_at" (JStr c)),
    (assoc_of_entry d "updated_at" (JStr u)); try assumption; try (apply Hin; tauto).
  reflexivity.
Qed.

Lemma from_dict_ignores_order_and_other_keys_witness :
  from_dict (JDict [("note", JNull); ("updated_at", JStr "u"); ("created_at", JStr "c");
                    ("priority", JInt 3); ("status", JStr "todo"); ("description", JStr "");
                    ("title", JStr "X"); ("id", JInt 1)]) boot
  = (Ok 0%nat, with_objects [mkTask 1 "X" "" "todo" 3 "c" "u"] boot).
Proof.
  apply (from_dict_ignores_order_and_other_keys (mkTask 1 "X" "" "todo" 3 "c" "u")).
  - vm_compute. repeat constructor; intros H; repeat (inversion H as [|? ? ? H']; clear H; rename H' into H).
  - unfold fields. simpl. intros kv Hkv.
    repeat (destruct Hkv as [<-|Hkv]; [simpl; tauto|]). contradiction.
Defined.

(** ** Records that fail *)

Lemma getitem_failure (data : json) (key : string) e :
  getitem data key = Raise e ->
  (e = TypeError /\ forall d, data <> JDict d) \/
  (exists d, data = JDict d /\ e = KeyError key /\ assoc key d = None).
Proof.
  unfold getitem. destruct data as [| | | | | |d];
    try (intros [= <-]; left; split; [reflexivity|discriminate]).
  destruct (assoc key d) eqn:Ha; [discriminate|]. intros [= <-].
  right. exists d. repeat split. exact Ha.
Qed.

Lemma decode_failure data e :
  decode data = Raise e ->
  (e = TypeError /\ forall d, data <> JDict d) \/
  (exists d k, data = JDict d /\ e = KeyError k /\
               In k ["id"; "title"; "description"; "status"; "priority"; "created_at";
                     "updated_at"] /\
               assoc k d = None).
Proof.
  intros H. destruct (decode_Raise data e H) as (k & Hin & Hk).
  destruct (getitem_failure data k e Hk) as [Hty|(d & -> & -> & Ha)]; [now left|].
  right. now exists d, k.
Qed.

(** X19. [Task.from_dict] fails in two ways only: with a [TypeError] when
    the value is no dict, and with the [KeyError] of a field name that the
    dict lacks. In both cases no Task object is created. *)
Theorem from_dict_failure (data : json) (st st' : state) (e : exn) :
  from_dict data st = (Raise e, st') ->
  st' = st /\
  ((e = TypeError /\ forall d, data <> JDict d) \/
   (exists d k, data = JDict d /\ e = KeyError k /\
                In k ["id"; "title"; "description"; "status"; "priority"; "created_at";
                      "updated_at"] /\
                assoc k d = None)).
Proof.
  rewrite from_dict_run. destruct (decode data) as [t|e'|] eqn:Hd; try discriminate.
  intros [= <- <-]. split; [reflexivity|]. now apply decode_failure.
Qed.

Lemma from_dict_failure_witness :
  snd (from_dict (JDict [("id", JInt 1)]) boot) = boot.
Proof.
  apply (from_dict_failure (JDict [("id", JInt 1)]) boot _ (KeyError "title")).
  reflexivity.
Defined.





Lemma init_state_with_unreadable_file path st f e :
  disk st !! path = Some f -> f <> Inaccessible -> read_tasks f = Raise e ->
  exists st', __init__ path st = (Ok tt, st') /\ collection st' = [] /\ wf st' /\
              self_path st' = path /\ disk st' = disk st /\
              console st' = console st ++ [LoadError e path].
Proof.
  intros Hd Hf Hr. rewrite init_run. set (st0 := before_load path st).
  rewrite (load_present f st0 Hd Hf). unfold try_except_Exception.
  destruct (load_body_run f st0 Hd) as (made & Hbody). rewrite Hr in Hbody.
  rewrite Hbody, (read_tasks_Exception f e Hr).
  eexists. split; [reflexivity|]. simpl. split; [apply collection_fresh_empty|].
  split; [|split; [|split]; reflexivity].
  split; simpl.
  - rewrite !length_app. simpl. lia.
  - rewrite list_lookup_total_middle by reflexivity. constructor.
Qed.

(** X21. A file that could not be loaded is lost at the first [add] that
    returns: the store was built empty, with the failure reported, and the
    file that [add] has written holds the new task alone, with id 1. *)
Theorem add_after_failed_load_replaces_the_file
    (path : string) (f : file) (e : exn) (ttl descr : string) (prio : Z) (now : string)
    (st st1 st2 : state) (a : addr) :
  disk st !! path = Some f -> read_tasks f = Raise e ->
  __init__ path st = (Ok tt, st1) ->
  add ttl descr prio now st1 = (Ok a, st2) ->
  collection st1 = [] /\
  console st1 = console st ++ [LoadError e path] /\
  collection st2 = [mkTask 1 ttl descr "todo" prio now now] /\
  disk st2 !! path
    = Some (Document (JList [asdict (mkTask 1 ttl descr "todo" prio now now)])).
Proof.
  intros Hd Hr Hinit Hadd.
  assert (Hf : f <> Inaccessible).
  { intros ->. rewrite init_run, (load_inaccessible (before_load path st) Hd) in Hinit.
    discriminate. }
  destruct (init_state_with_unreadable_file path st f e Hd Hf Hr)
    as (st1' & Hinit' & Hc & Hwf & Hpath & _ & Hconsole).
  rewrite Hinit in Hinit'. injection Hinit' as <-.
  rewrite add_run in Hadd. injection Hadd as <- <-.
  split; [exact Hc|]. split; [exact Hconsole|].
  pose proof (disk_after_add ttl descr prio now st1) as Hdisk.
  rewrite collection_after_add in Hdisk |- * by exact Hwf.
  replace (self_path (after_add ttl descr prio now st1)) with path in Hdisk
    by (now rewrite <- Hpath).
  rewrite Hdisk, Hc. unfold added_task, ids. rewrite Hc. split; reflexivity.
Qed.

Lemma add_after_failed_load_replaces_the_file_witness :
  disk (snd (add "X" "" 3 "2026-11-03T20:15:00"
               (snd (__init__ "tasks.json" (with_disk {[ "tasks.json" := BadJson ]} boot)))))
    !! "tasks.json"
  = Some (Document (JList [asdict (mkTask 1 "X" "" "todo" 3 "2026-11-03T20:15:00"
                                          "2026-11-03T20:15:00")])).
Proof.
  apply (add_after_failed_load_replaces_the_file "tasks.json" BadJson JSONDecodeError
           "X" "" 3 "2026-11-03T20:15:00" (with_disk {[ "tasks.json" := BadJson ]} boot)
           (snd (__init__ "tasks.json" (with_disk {[ "tasks.json" := BadJson ]} boot)))
           (snd (add "X" "" 3 "2026-11-03T20:15:00"
                   (snd (__init__ "tasks.json" (with_disk {[ "tasks.json" := BadJson ]} boot)))))
           0%nat).
  - reflexivity.
  - reflexivity.
  - vm_compute. reflexivity.
  - vm_compute. reflexivity.
Defined.

(** ** What [__init__] does with each kind of file *)





(** ** Consecutive ids *)

Lemma next_id_value_grows (l : list Z) :
  next_id_value (l ++ [next_id_value l]) = next_id_value l + 1.
Proof.
  destruct l as [|x xs]; [reflexivity|]. simpl. unfold py_max.
  rewrite fold_left_app. simpl. fold (py_max x xs). lia.
Qed.

Lemma assigned_consecutive {A} (reqs : list A) (l : list Z) :
  assigned l reqs
  = map (fun k => next_id_value l + Z.of_nat k) (seq 0 (length reqs)).
Proof.
  revert l. induction reqs as [|q reqs IH]; intros l; simpl; [reflexivity|].
  rewrite Z.add_0_r. f_equal. rewrite IH, next_id_value_grows.
  rewrite <- seq_shift, map_map. apply map_ext. intros k. lia.
Qed.

(** X22. A sequence of [n] calls of [add] assigns consecutive ids: the id
    [next_id] would return before the first call, then that id plus 1, and
    so on; in an empty store these are 1, 2, ..., n. *)
Theorem add_assigns_consecutive_ids (reqs : list request) (st : state) :
  wf st ->
  exists first new st',
    next_id st = (Ok first, st) /\
    add_all reqs st = (Ok new, st') /\
    map (fun a => id (objects st' !!! a)) new
      = map (fun k => first + Z.of_nat k) (seq 0 (length reqs)) /\
    (collection st = [] -> ids st' = map (fun k => 1 + Z.of_nat k) (seq 0 (length reqs))).
Proof.
  intros Hwf.
  destruct (add_all_run reqs st Hwf) as (new & st' & Hrun & _ & _ & _ & Hids & Hall).
  exists (next_id_value (ids st)), new, st'.
  split; [apply next_id_run|]. split; [exact Hrun|].
  rewrite Hids, Hall, assigned_consecutive. split; [reflexivity|].
  intros Hnil. unfold ids at 1 2. now rewrite Hnil.
Qed.

Lemma add_assigns_consecutive_ids_witness :
  exists new st',
    add_all [("Buy milk", "", 2, "2026-11-03T20:15:00");
             ("Write report", "", 5, "2026-11-03T20:15:01")] empty_store = (Ok new, st') /\
    ids st' = [1; 2].
Proof.
  destruct (add_assigns_consecutive_ids
              [("Buy milk", "", 2, "2026-11-03T20:15:00");
               ("Write report", "", 5, "2026-11-03T20:15:01")] empty_store wf_empty_store)
    as (first & new & st' & _ & Hrun & _ & Hids).
  exists new, st'. split; [exact Hrun|]. now apply Hids.
Defined.

End TaskTrackerMore.

(** * Properties of the command-line demo *)

Section ArgparseFacts.
Import ArgparseDemo.

Variable upper : string -> string.
Variable parse_args : list string -> M world Args.

Lemma try_returns {S A} (body : M S A) h1 h2 s a s' :
  body s = (Ok a, s') -> try_except_SystemExit_Exception body h1 h2 s = (Ok a, s').
Proof. intros H. unfold try_except_SystemExit_Exception. now rewrite H. Qed.

Lemma try_passes_Untyped {S A} (body : M S A) h1 h2 s s' :
  body s = (Untyped, s') -> try_except_SystemExit_Exception body h1 h2 s = (Untyped, s').
Proof. intros H. unfold try_except_SystemExit_Exception. now rewrite H. Qed.

Lemma try_catches_SystemExit {S A} (body : M S A) h1 h2 s code s' :
  body s = (Raise (SystemExit code), s') ->
  try_except_SystemExit_Exception body h1 h2 s = h1 code s'.
Proof. intros H. unfold try_except_SystemExit_Exception. now rewrite H. Qed.

Lemma try_catches_Exception {S A} (body : M S A) h1 h2 s e s' :
  is_Exception e = true -> body s = (Raise e, s') ->
  try_except_SystemExit_Exception body h1 h2 s = h2 e s'.
Proof.
  intros He H. unfold try_except_SystemExit_Exception. rewrite H.
  now destruct e.
Qed.

Lemma bind_cong_run {S A B} (c c' : M S A) (k : A -> M S B) s s' :
  c s = c' s' -> bind c k s = bind c' k s'.
Proof. intros H. unfold bind. now rewrite H. Qed.

(** The message [handle_greet] leaves with is no numeral. *)
Lemma greet_message_is_no_int :
  int_of_code (CodeStr "Количество повторов должно быть >= 1") = Raise ValueError.
Proof. vm_compute. reflexivity. Qed.

Lemma handle_greet_rejects (args : Namespace) (config : AppConfig) (w : world) :
  times args < 1 ->
  handle_greet upper args config w
  = (Raise (SystemExit (CodeStr "Количество повторов должно быть >= 1")), w).
Proof.
  intros Hlt. unfold handle_greet. apply Z.ltb_lt in Hlt. now rewrite Hlt.
Qed.

(** What [main] does once the arguments are parsed and a handler is set, by
    the way the handler ends. *)
Lemma main_after_handler argv w args f :
  parse_args argv w = (Ok args, w) -> func args = Some f ->
  main parse_args (Some argv) w =
  match f (ns args) (get_config (ns args)) w with
  | (Ok _, w') => (Ok 0, w')
  | (Raise (SystemExit code), w') =>
      let w'' := if truthy code
                 then mkWorld (sys_argv w') (stdout w' ++ [Line ("[ERROR] " +:+ str_of_code code)])
                              (files w')
                 else w' in
      match int_of_code code with
      | Ok n => (Ok n, w'')
      | Raise e => (Raise e, w'')
      | Untyped => (Untyped, w'')
      end
  | (Raise e, w') =>
      (Ok 1, mkWorld (sys_argv w') (stdout w' ++ [Unexpected e]) (files w'))
  | (Untyped, w') => (Untyped, w')
  end.
Proof.
  intros Hparse Hf. unfold main. unfold bind at 1, get. cbv beta iota.
  rewrite (bind_Ok _ _ _ _ _ Hparse), Hf.
  destruct (f (ns args) (get_config (ns args)) w) as [[[]|e|] w'] eqn:Hrun.
  - rewrite (bind_Ok _ _ w None w'); [reflexivity|].
    apply try_returns. now rewrite (bind_Ok _ _ _ _ _ Hrun).
  - destruct (is_Exception e) eqn:He.
    + rewrite (bind_Ok _ _ w (Some 1)
                 (mkWorld (sys_argv w') (stdout w' ++ [Unexpected e]) (files w'))).
      * now destruct e.
      * rewrite (try_catches_Exception _ _ _ _ e w' He (bind_Raise _ _ _ _ _ Hrun)).
        reflexivity.
    + destruct e as [| | | | | |code]; try discriminate.
      rewrite (bind_cong_run _ _ _ _ _ (try_catches_SystemExit _ _ _ _ code w'
                                          (bind_Raise _ _ _ _ _ Hrun))).
      unfold bind, print, modify, lift, ret.
      destruct (truthy code); simpl; now destruct (int_of_code code).
  - apply bind_Untyped, try_passes_Untyped. now apply bind_Untyped.
Qed.

(** C10 on the input [greet Alex --times 0]: the handler leaves through
    [SystemExit] with a message, [main] prints it, and converting the message
    to an exit code raises [ValueError]; no exit code is returned. *)
Theorem main_greet_zero_times_raises_ValueError (w : world) :
  parse_args ["greet"; "Alex"; "--times"; "0"] w = (Ok (greet_zero upper), w) ->
  main parse_args (Some ["greet"; "Alex"; "--times"; "0"]) w
  = (Raise ValueError,
     mkWorld (sys_argv w)
             (stdout w ++ [Line "[ERROR] Количество повторов должно быть >= 1"])
             (files w)).
Proof.
  intros Hparse.
  rewrite (main_after_handler _ _ _ _ Hparse eq_refl).
  cbn [greet_zero ns]. rewrite handle_greet_rejects by (simpl; lia).
  rewrite greet_message_is_no_int. reflexivity.
Qed.

(** With no subcommand the parser itself leaves with status 2 (the
    subparsers are required), and [main] lets that through: the branch that
    would return 1 is not reached. *)
Lemma main_without_subcommand (w w' : world) :
  parse_args [] w = (Raise (SystemExit (CodeInt 2)), w') ->
  main parse_args (Some []) w = (Raise (SystemExit (CodeInt 2)), w').
Proof.
  intros Hparse. unfold main. unfold bind at 1, get. cbv beta iota.
  now apply bind_Raise.
Qed.

End ArgparseFacts.

(** C10, with a parser that returns the namespace of [greet Alex --times 0]. *)
Lemma main_greet_zero_times_raises_ValueError_witness :
  ArgparseDemo.main (fun _ => ret (ArgparseDemo.greet_zero (fun s => s)))
                    (Some ["greet"; "Alex"; "--times"; "0"]) ArgparseDemo.quiet
  = (Raise ValueError,
     ArgparseDemo.mkWorld [] [ArgparseDemo.Line "[ERROR] Количество повторов должно быть >= 1"] ∅).
Proof.
  apply (main_greet_zero_times_raises_ValueError (fun s => s)
           (fun _ => ret (ArgparseDemo.greet_zero (fun s => s))) ArgparseDemo.quiet).
  reflexivity.
Defined.

(** * Further properties of the command-line demo and of the views *)

Section TextFacts.
Import ArgparseDemo TaskTrackerView FileStats.

Lemma py_len_app (a b : string) : py_len (a +:+ b) = (py_len a + py_len b)%nat.
Proof.
  induction a as [|c a IH]; simpl; [reflexivity|].
  rewrite IH. now destruct ((128 <=? byte c) && (byte c <? 192))%N.
Qed.

Lemma py_len_repeat_str (s : string) (n : nat) :
  py_len (repeat_str s n) = (n * py_len s)%nat.
Proof.
  induction n as [|n IH]; simpl; [reflexivity|]. rewrite py_len_app, IH. lia.
Qed.

(** X13. The priority cell of the table holds [priority] filled stars
    followed by [5 - priority] hollow ones: exactly five characters for a
    priority from 0 to 5, and as many as the priority itself when a task
    loaded from a file carries a priority above 5. *)
Theorem priority_stars_width (priority : Z) :
  priority_stars priority
    = repeat_str "★" (Z.to_nat priority) +:+ repeat_str "☆" (Z.to_nat (5 - priority)) /\
  (0 <= priority <= 5 -> py_len (priority_stars priority) = 5%nat) /\
  (5 < priority -> py_len (priority_stars priority) = Z.to_nat priority) /\
  (priority < 0 -> py_len (priority_stars priority) = Z.to_nat (5 - priority)).
Proof.
  split; [reflexivity|]. unfold priority_stars.
  rewrite py_len_app, !py_len_repeat_str.
  change (py_len "★") with 1%nat. change (py_len "☆") with 1%nat.
  repeat split; intros; lia.
Qed.

(** ** Counting lines *)

Lemma count_newlines_app (a b : string) :
  count_newlines (a +:+ b) = (count_newlines a + count_newlines b)%nat.
Proof. induction a as [|c a IH]; simpl; [reflexivity|]. rewrite IH. lia. Qed.

Lemma endswith_newline_app (a b : string) :
  b <> "" -> endswith_newline (a +:+ b) = endswith_newline b.
Proof.
  intros Hb. induction a as [|c a IH]; simpl; [reflexivity|].
  rewrite <- IH. destruct (a +:+ b) eqn:Hab; [|reflexivity].
  destruct a; simpl in Hab; [contradiction|discriminate].
Qed.

Lemma endswith_newline_counts (s : string) :
  endswith_newline s = true -> (1 <= count_newlines s)%nat.
Proof.
  induction s as [|c s IH]; simpl; [discriminate|].
  destruct s as [|d s]; [intros ->; simpl; lia|]. intros H. specialize (IH H). lia.
Qed.

Lemma append_not_empty (a b : string) : b <> "" -> a +:+ b <> "".
Proof. intros Hb. destruct a; simpl; [exact Hb|discriminate]. Qed.

Lemma join_newline_cons (l : string) (ls : list string) :
  ls <> [] -> join newline (l :: ls) = l +:+ newline +:+ join newline ls.
Proof. destruct ls; [contradiction|reflexivity]. Qed.

Lemma count_newlines_join (ls : list string) :
  Forall (fun l => count_newlines l = 0%nat) ls ->
  count_newlines (join newline ls) = (length ls - 1)%nat.
Proof.
  induction 1 as [|l ls Hl _ IH]; [reflexivity|].
  destruct ls as [|l' ls]; [simpl; lia|].
  rewrite join_newline_cons by discriminate.
  rewrite !count_newlines_app, Hl, IH. simpl. lia.
Qed.

Lemma join_ends_like_last (ls : list string) :
  List.last ls "" <> "" ->
  join newline ls <> "" /\ endswith_newline (join newline ls) = endswith_newline (List.last ls "").
Proof.
  induction ls as [|l ls IH]; [intros H; now contradiction H|].
  destruct ls as [|l' ls]; [simpl; intros H; now split|].
  intros Hlast. change (List.last (l :: l' :: ls) "") with (List.last (l' :: ls) "") in Hlast.
  destruct (IH Hlast) as [Hne Hend].
  rewrite join_newline_cons by discriminate.
  change (List.last (l :: l' :: ls) "") with (List.last (l' :: ls) "").
  split.
  - apply append_not_empty, append_not_empty, Hne.
  - rewrite endswith_newline_app by now apply append_not_empty.
    now rewrite endswith_newline_app.
Qed.

(** X14. The line count of [file stats] is the number of lines of the text:
    for lines that hold no newline, the text made of them counts as many
    lines as there are, with or without a newline after the last one (the
    last line being non-empty in that case); the empty text has no line. *)
Theorem lines_count_of_lines (ls : list string) :
  ls <> [] -> Forall (fun l => count_newlines l = 0%nat) ls ->
  lines_count (join newline ls +:+ newline) = length ls /\
  (List.last ls "" <> "" -> lines_count (join newline ls) = length ls) /\
  lines_count "" = 0%nat.
Proof.
  intros Hne Hls. pose proof (count_newlines_join ls Hls) as Hcount.
  assert (Hlen : (1 <= length ls)%nat) by (destruct ls; [contradiction|simpl; lia]).
  split; [|split; [|reflexivity]].
  - unfold lines_count. rewrite count_newlines_app, Hcount.
    rewrite endswith_newline_app by discriminate. simpl. lia.
  - intros Hlast. destruct (join_ends_like_last ls Hlast) as [Hjoin Hend].
    unfold lines_count. rewrite Hcount, Hend.
    assert (Hl0 : count_newlines (List.last ls "") = 0%nat).
    { destruct (List.exists_last Hne) as (ls' & l & ->).
      rewrite List.last_last. apply Forall_app in Hls as [_ Hl]. now inversion Hl. }
    destruct (endswith_newline (List.last ls "")) eqn:He.
    + apply endswith_newline_counts in He. lia.
    + apply String.eqb_neq in Hjoin. rewrite Hjoin. lia.
Qed.

Lemma lines_count_of_lines_witness :
  lines_count (join newline ["Buy milk"; "Write report"] +:+ newline) = 2%nat.
Proof.
  destruct (lines_count_of_lines ["Buy milk"; "Write report"]) as [H _].
  - discriminate.
  - repeat (constructor; [reflexivity|]). constructor.
  - exact H.
Defined.

(** ** [write_output] *)



End TextFacts.

Section ArgparseMore.
Import ArgparseDemo.

Variable upper : string -> string.
Variable parse_args : list string -> M world Args.

(** ** Exit codes of [main] *)

(** X15. Once the arguments are parsed and a handler is set: if the handler
    returns, [main] returns 0 and prints nothing of its own; if the handler
    raises an exception other than [SystemExit], [main] prints the
    unexpected-error line and returns 1. *)
Theorem main_exit_code_of_handler
    (argv : list string) (w : world) (args : Args)
    (f : Namespace -> AppConfig -> M world unit) :
  parse_args argv w = (Ok args, w) -> func args = Some f ->
  (forall w', f (ns args) (get_config (ns args)) w = (Ok tt, w') ->
              main parse_args (Some argv) w = (Ok 0, w')) /\
  (forall e w', is_Exception e = true ->
              f (ns args) (get_config (ns args)) w = (Raise e, w') ->
              main parse_args (Some argv) w
              = (Ok 1, mkWorld (sys_argv w') (stdout w' ++ [Unexpected e]) (files w'))).
Proof.
  intros Hparse Hf. pose proof (main_after_handler parse_args argv w args f Hparse Hf) as Hmain.
  split.
  - intros w' Hrun. now rewrite Hmain, Hrun.
  - intros e w' He Hrun. rewrite Hmain, Hrun. now destruct e.
Qed.

(** X16. When the handler leaves through [SystemExit] with a number, [main]
    returns that number, after an [ERROR] line when it is not 0; when
    [SystemExit] carries nothing or the empty string, [main] returns 0 and
    prints nothing. *)
Theorem main_exit_code_of_SystemExit
    (argv : list string) (w : world) (args : Args)
    (f : Namespace -> AppConfig -> M world unit) :
  parse_args argv w = (Ok args, w) -> func args = Some f ->
  (forall n w', f (ns args) (get_config (ns args)) w = (Raise (SystemExit (CodeInt n)), w') ->
     main parse_args (Some argv) w
     = (Ok n, if n =? 0 then w'
              else mkWorld (sys_argv w') (stdout w' ++ [Line ("[ERROR] " +:+ pretty n)])
                           (files w'))) /\
  (forall code w', code = CodeNone \/ code = CodeStr "" ->
     f (ns args) (get_config (ns args)) w = (Raise (SystemExit code), w') ->
     main parse_args (Some argv) w = (Ok 0, w')).
Proof.
  intros Hparse Hf. pose proof (main_after_handler parse_args argv w args f Hparse Hf) as Hmain.
  split.
  - intros n w' Hrun. rewrite Hmain, Hrun. cbv zeta.
    unfold int_of_code, truthy, str_of_code.
    destruct (n =? 0) eqn:Hn; [apply Z.eqb_eq in Hn; subst n|]; reflexivity.
  - intros code w' Hcode Hrun. rewrite Hmain, Hrun. now destruct Hcode as [-> | ->].
Qed.

(** ** [handle_greet] *)

Lemma greet_lines_length v base start n : length (greet_lines v base start n) = n.
Proof. revert start. induction n as [|n IH]; intros start; simpl; [reflexivity|]. now rewrite IH. Qed.

Lemma greet_lines_lookup v base start n k :
  (k < n)%nat ->
  greet_lines v base start n !! k
  = Some (if v then "[" +:+ pretty (start + Z.of_nat k + 1) +:+ "] " +:+ base else base).
Proof.
  revert start k. induction n as [|n IH]; intros start k Hk; [lia|].
  destruct k as [|k].
  - change (Z.of_nat 0) with 0. rewrite Z.add_0_r. reflexivity.
  - replace (start + Z.of_nat (S k) + 1) with (start + 1 + Z.of_nat k + 1) by lia.
    exact (IH (start + 1) k ltac:(lia)).
Qed.




(** X17. With a repeat count of at least 1, [handle_greet] hands to
    [write_output] the header, a rule of dashes of the header's length in
    characters, and exactly [times] greetings; with [--verbose] they are
    numbered from 1, otherwise they are all the same text. *)
Theorem handle_greet_writes_times_greetings
    (args : Namespace) (config : AppConfig) (w : world) :
  1 <= times args ->
  exists greetings,
    handle_greet upper args config w
    = write_output (("Блок приветствия для: " +:+ name args)
                      :: repeat_str "-" (py_len ("Блок приветствия для: " +:+ name args))
                      :: greetings) config w /\
    length greetings = Z.to_nat (times args) /\
    py_len (repeat_str "-" (py_len ("Блок приветствия для: " +:+ name args)))
      = py_len ("Блок приветствия для: " +:+ name args) /\
    (forall k, (k < Z.to_nat (times args))%nat ->
       greetings !! k =
       Some (let base := if shout args then upper ("Привет, " +:+ name args +:+ "!")
                         else "Привет, " +:+ name args +:+ "!" in
             if cfg_verbose config then "[" +:+ pretty (Z.of_nat k + 1) +:+ "] " +:+ base
             else base)).
Proof.
  intros Htimes. unfold handle_greet.
  assert (Hge : (times args <? 1) = false) by now apply Z.ltb_ge.
  rewrite Hge. eexists. split; [reflexivity|].
  split; [apply greet_lines_length|]. split.
  - rewrite py_len_repeat_str. change (py_len "-") with 1%nat. lia.
  - intros k Hk. rewrite greet_lines_lookup by exact Hk. reflexivity.
Qed.


End ArgparseMore.

(** ** Instances *)

Lemma main_exit_code_of_handler_witness :
  ArgparseDemo.main
    (fun _ => ret (ArgparseDemo.mkArgs (ArgparseDemo.mkNamespace false None "" 1 false)
                                       (Some (fun _ _ => ret tt))))
    (Some ["calc"]) ArgparseDemo.quiet
  = (Ok 0, ArgparseDemo.quiet).
Proof.
  apply (main_exit_code_of_handler
           (fun _ => ret (ArgparseDemo.mkArgs (ArgparseDemo.mkNamespace false None "" 1 false)
                                              (Some (fun _ _ => ret tt))))
           ["calc"] ArgparseDemo.quiet _ (fun _ _ => ret tt) eq_refl eq_refl).
  reflexivity.
Defined.

Lemma main_exit_code_of_SystemExit_witness :
  ArgparseDemo.main
    (fun _ => ret (ArgparseDemo.mkArgs (ArgparseDemo.mkNamespace false None "" 1 false)
                                       (Some (fun _ _ => raise (SystemExit (CodeInt 3))))))
    (Some ["calc"]) ArgparseDemo.quiet
  = (Ok 3, ArgparseDemo.mkWorld [] [ArgparseDemo.Line "[ERROR] 3"] ∅).
Proof.
  apply (proj1 (main_exit_code_of_SystemExit
           (fun _ => ret (ArgparseDemo.mkArgs (ArgparseDemo.mkNamespace false None "" 1 false)
                            (Some (fun _ _ => raise (SystemExit (CodeInt 3))))))
           ["calc"] ArgparseDemo.quiet _ (fun _ _ => raise (SystemExit (CodeInt 3)))
           eq_refl eq_refl) 3 ArgparseDemo.quiet).
  reflexivity.
Defined.

Lemma handle_greet_writes_times_greetings_witness :
  exists greetings,
    length greetings = 3%nat /\ greetings !! 2%nat = Some "[3] Привет, Alex!".
Proof.
  destruct (handle_greet_writes_times_greetings (fun s => s)
              (ArgparseDemo.mkNamespace true None "Alex" 3 false)
              (ArgparseDemo.mkAppConfig true None) ArgparseDemo.quiet)
    as (greetings & _ & Hlen & _ & Hk).
  - simpl. lia.
  - exists greetings. split; [exact Hlen|]. apply (Hk 2%nat). simpl. lia.
Defined.

